(** * Backward-Euler / Crouzeix-Raviart heat-equation notebook

    A shallow embedding of [main_diffusion_CR.ipynb].  The notebook is a
    sequence of calls into dolfinx, PETSc, numpy and pyvista followed by one
    time loop.  The libraries are an interface ([Library]) of operations that
    may raise; the notebook itself is written against that interface in an
    exception monad, with the Python globals that the loop mutates held in a
    [State] record.

    Numbers: the Python floats that drive the control flow ([t], [T], [dt])
    are rationals, so the loop can be run; degree-of-freedom values are real
    numbers, so that [np.exp] is the exponential. *)

From Stdlib Require Import Reals QArith Qreals Psatz ZArith List Floats.
From Stdlib Require Import Qround Sorted Permutation.
From stdpp Require Import gmap strings list sorting.
Import ListNotations.

(** ** Outcomes of a Python computation *)

(** A Python exception, by its message. *)
Definition exn := string.

(** A computation returns a value, raises, or (loops only) exhausts the
    iteration budget of the model. *)
Inductive outcome (X : Type) : Type :=
| Done (x : X)
| Raise (e : exn)
| Timeout.
Arguments Done {X} x.
Arguments Raise {X} e.
Arguments Timeout {X}.

(** Sequencing of statements: there is no [try] in the notebook, so the
    first exception ends the run. *)
Definition bind {X Y : Type} (m : outcome X) (k : X -> outcome Y) : outcome Y :=
  match m with
  | Done x => k x
  | Raise e => Raise e
  | Timeout => Timeout
  end.

Notation "x <- m ;; k" := (bind m (fun x => k))
  (at level 20, m at level 99, k at level 200, format "'[v' x  <-  m  ;;  '/' k ']'").

(** A call into a library returns or raises; it has no way to exhaust the
    budget of the model. *)
Inductive result (X : Type) : Type :=
| Ok (x : X)
| Error (e : exn).
Arguments Ok {X} x.
Arguments Error {X} e.

Definition call {X : Type} (r : result X) : outcome X :=
  match r with
  | Ok x => Done x
  | Error e => Raise e
  end.
Coercion call : result >-> outcome.

(** ** numpy arrays *)

(** A one-dimensional float array. *)
Definition ndarray := list R.

(** A point as the interpolation callbacks receive it: [x[0]], [x[1]],
    [x[2]].  The callbacks of the notebook are numpy expressions applied to
    whole rows of coordinates; numpy evaluates them element by element, which
    is how they are embedded. *)
Definition point := list R.

Notation "x .[ i ]" := (nth i x 0%R) (at level 1, left associativity, format "x .[ i ]").

(** [dst[:] = src]: copies when the shapes agree, broadcasts a source of
    length one, raises otherwise.  The length of [dst] never changes.  For an
    array of points the entries are its rows. *)
Definition np_assign {X : Type} (dst src : list X) : outcome (list X) :=
  if (length src =? length dst)%nat then Done src
  else match src with
       | [x] => Done (repeat x (length dst))
       | _ => Raise "ValueError: could not broadcast input array"
       end.

(** The builtin [max] over an array: raises on an empty one. *)
Definition py_max (xs : ndarray) : outcome R :=
  match xs with
  | [] => Raise "ValueError: max() arg is an empty sequence"
  | x :: xs' => Done (fold_left Rmax xs' x)
  end.

(** ** PETSc vectors *)

(** PETSc writes results into the storage of an existing vector; sizes that
    do not conform raise. *)
Definition vec_write (dst src : ndarray) : outcome ndarray :=
  if (length src =? length dst)%nat then Done src
  else Raise "PETSc.Error: nonconforming object sizes".

(** [loc_b.set(alpha)] *)
Definition vec_set (alpha : R) (v : ndarray) : ndarray := map (fun _ => alpha) v.

(** [v += w], entry by entry. *)
Definition vec_axpy (v w : ndarray) : outcome ndarray :=
  if (length w =? length v)%nat then Done (zip_with Rplus v w)
  else Raise "PETSc.Error: nonconforming object sizes".

(** ** UFL forms *)

(** The functions that appear as coefficients in the forms of the notebook. *)
Inductive coefficient := coef_u_n | coef_f.

Inductive shape := scalar | vector.

(** UFL expressions, as the Python operators build them. *)
Inductive expr (FS : Type) : shape -> Type :=
| TrialFunction (V : FS) : expr FS scalar
| TestFunction (V : FS) : expr FS scalar
| Coefficient (c : coefficient) : expr FS scalar
| FloatValue (c : Q) : expr FS scalar
| Sum (e1 e2 : expr FS scalar) : expr FS scalar
| Product (e1 e2 : expr FS scalar) : expr FS scalar
| Dot (e1 e2 : expr FS vector) : expr FS scalar
| Grad (e : expr FS scalar) : expr FS vector.
Arguments TrialFunction {FS} V.
Arguments TestFunction {FS} V.
Arguments Coefficient {FS} c.
Arguments FloatValue {FS} c.
Arguments Sum {FS} e1 e2.
Arguments Product {FS} e1 e2.
Arguments Dot {FS} e1 e2.
Arguments Grad {FS} e.

(** A form: integrals over the cells of the mesh ([* ufl.dx]) and their sums. *)
Inductive form (FS : Type) : Type :=
| Integral (integrand : expr FS scalar)
| FormSum (f1 f2 : form FS).
Arguments Integral {FS} integrand.
Arguments FormSum {FS} f1 f2.

(** *** What a form denotes

    Scalar fields [Fld] and vector fields [VFld] over the domain, with the
    integral over the domain.  [denote_form] reads a form as the number it
    assigns to a trial function [u], a test function [v] and the current
    coefficient functions. *)
Record FieldAlgebra := {
  Fld : Type;
  VFld : Type;
  fconst : R -> Fld;
  fadd : Fld -> Fld -> Fld;
  fmul : Fld -> Fld -> Fld;
  vdot : VFld -> VFld -> Fld;
  grad : Fld -> VFld;
  integral : Fld -> R
}.

Definition sem (K : FieldAlgebra) (sh : shape) : Type :=
  match sh with scalar => Fld K | vector => VFld K end.

Fixpoint denote {FS : Type} (K : FieldAlgebra) (u v : Fld K)
    (coef : coefficient -> Fld K) {sh : shape} (e : expr FS sh) : sem K sh :=
  match e in expr _ sh return sem K sh with
  | TrialFunction _ => u
  | TestFunction _ => v
  | Coefficient c => coef c
  | FloatValue c => fconst K (Q2R c)
  | Sum e1 e2 => fadd K (denote K u v coef e1) (denote K u v coef e2)
  | Product e1 e2 => fmul K (denote K u v coef e1) (denote K u v coef e2)
  | Dot e1 e2 => vdot K (denote K u v coef e1) (denote K u v coef e2)
  | Grad e1 => grad K (denote K u v coef e1)
  end.

Fixpoint denote_form {FS : Type} (K : FieldAlgebra) (u v : Fld K)
    (coef : coefficient -> Fld K) (F : form FS) : R :=
  match F with
  | Integral e => integral K (denote K u v coef e)
  | FormSum f1 f2 => (denote_form K u v coef f1 + denote_form K u v coef f2)%R
  end.

(** The integral is linear over multiplication by a constant field. *)
Definition integral_homogeneous (K : FieldAlgebra) : Prop :=
  forall (c : R) (g : Fld K),
    integral K (fmul K (fconst K c) g) = (c * integral K g)%R.

(** ** The libraries *)

Inductive Comm := COMM_WORLD | COMM_SELF.

(** [dolfinx.mesh.CellType] *)
Inductive CellType := interval | triangle | quadrilateral | tetrahedron | hexahedron.

(** Topological dimension of a cell. *)
Definition cell_dim (c : CellType) : Z :=
  match c with
  | interval => 1
  | triangle | quadrilateral => 2
  | tetrahedron | hexahedron => 3
  end.

Inductive KSPType := PREONLY | CG | GMRES.
Inductive PCType := LU | ILU | JACOBI.
Inductive InsertMode := INSERT_VALUES | ADD_VALUES.
Inductive ScatterMode := FORWARD | REVERSE.

(** [PETSc.KSP]: a solver object and what has been configured on it. *)
Record KSP (M : Type) := mkKSP {
  ksp_comm : Comm;
  operators : option M;
  ksp_type : option KSPType;
  pc_type : option PCType
}.
Arguments mkKSP {M}.
Arguments ksp_comm {M}.
Arguments operators {M}.
Arguments ksp_type {M}.
Arguments pc_type {M}.

Definition KSP_create {M : Type} (comm : Comm) : KSP M :=
  mkKSP comm None None None.
Definition setOperators {M : Type} (Amat : M) (ksp : KSP M) : KSP M :=
  mkKSP (ksp_comm ksp) (Some Amat) (ksp_type ksp) (pc_type ksp).
Definition setType {M : Type} (ty : KSPType) (ksp : KSP M) : KSP M :=
  mkKSP (ksp_comm ksp) (operators ksp) (Some ty) (pc_type ksp).
Definition getPC_setType {M : Type} (ty : PCType) (ksp : KSP M) : KSP M :=
  mkKSP (ksp_comm ksp) (operators ksp) (ksp_type ksp) (Some ty).

(** The operations of dolfinx, PETSc, pyvista and matplotlib that the
    notebook calls.  Each call either returns or raises.  Operations that the
    libraries perform in place are given here as the function that computes
    the new contents; the notebook's statements below write them back. *)
Record Library := {
  Mesh : Type;
  FunctionSpace : Type;
  DirichletBC : Type;
  Mat : Type;
  UnstructuredGrid : Type;
  Colormap : Type;
  Frame : Type;
  (* dolfinx.mesh *)
  create_rectangle : Comm -> list (list Z) -> list Z -> CellType -> result Mesh;
  mesh_comm : Mesh -> Comm;
  topology_cell_type : Mesh -> CellType;
  index_map_size_local : Mesh -> Z -> result nat;
  locate_entities_boundary : Mesh -> Z -> (point -> bool) -> result (list Z);
  (* dolfinx.fem *)
  functionspace : Mesh -> string * Z -> result FunctionSpace;
  Function : FunctionSpace -> result ndarray;
  interpolation_points : FunctionSpace -> result (list point);
  tabulate_dof_coordinates : FunctionSpace -> result (list point);
  dof_layout_num_dofs : FunctionSpace -> nat;
  dofmap_list : FunctionSpace -> list (list Z);
  locate_dofs_topological : FunctionSpace -> Z -> list Z -> result (list Z);
  dirichletbc : R -> list Z -> FunctionSpace -> result DirichletBC;
  (* dolfinx.fem.petsc; [fem.form] is part of the call that takes the form *)
  assemble_matrix : form FunctionSpace -> result Mat;
  mat_assemble : Mat -> result Mat;
  create_vector : form FunctionSpace -> result ndarray;
  assemble_linear_form :
    form FunctionSpace -> (coefficient -> ndarray) -> result ndarray;
  apply_lifting :
    ndarray -> list (form FunctionSpace) -> list (list DirichletBC) -> result ndarray;
  ghostUpdate : ndarray -> InsertMode -> ScatterMode -> result ndarray;
  set_bc : ndarray -> list DirichletBC -> result ndarray;
  (* petsc4py *)
  ksp_solve : KSP Mat -> ndarray -> result ndarray;
  scatter_forward : ndarray -> result ndarray;
  (* dolfinx.cpp.io *)
  perm_vtk : CellType -> nat -> result (list nat);
  cell_type_code : CellType -> Z;
  (* pyvista, matplotlib *)
  start_xvfb : result unit;
  new_UnstructuredGrid : list Z -> list Z -> list point -> result UnstructuredGrid;
  new_Plotter : result unit;
  gif_writer : string -> Z -> result unit;
  warp_by_scalar : UnstructuredGrid -> ndarray -> R -> result (list point);
  get_cmap_resampled : string -> nat -> result Colormap;
  add_mesh : list point -> ndarray -> Colormap -> R * R -> result unit;
  render : list point -> ndarray -> result Frame;
  gif_close : string -> result unit
}.

(** [domain.topology.dim] *)
Definition topology_dim (lib : Library) (domain : Mesh lib) : Z :=
  cell_dim (topology_cell_type lib domain).

(** [np.argsort] of a list of keys: the indices in the order of their keys,
    equal keys by index. *)
Fixpoint insert_by_key (key : nat -> nat) (i : nat) (l : list nat) : list nat :=
  match l with
  | [] => [i]
  | j :: l' => if (key i <=? key j)%nat then i :: l else j :: insert_by_key key i l'
  end.

Definition np_argsort (keys : list nat) : list nat :=
  fold_right (insert_by_key (fun i => nth i keys 0%nat)) [] (seq 0 (length keys)).

(** ** The notebook: source term, initial condition, parameters, forms *)

Module TimeDependentSource.

Record self := { t : Q }.

(** [__init__(self, t=0)] *)
Definition init (t0 : Q) : self := {| t := t0 |}.

(** [eval(self, x)] *)
Definition eval (s : self) (x : point) : R :=
  (- (x.[0] * x.[1] * (x.[0] - 2) * (x.[1] - 2)
      + 2 * x.[0] * (x.[0] - 2) + 2 * x.[1] * (x.[1] - 2))
   * exp (Q2R (- t s)))%R.

End TimeDependentSource.

Definition initial_condition (x : point) : R :=
  (x.[0] * x.[1] * (x.[0] - 2) * (x.[1] - 2))%R.

Definition nx : Z := 64.
Definition ny : Z := 64.

(** Final time, number of steps, step size. *)
Definition T : Q := 3.
Definition num_steps : Q := 200.
Definition dt : Q := T / num_steps.

(** [a = u * v * ufl.dx + dt * ufl.dot(ufl.grad(u), ufl.grad(v)) * ufl.dx] *)
Definition a {FS : Type} (V : FS) : form FS :=
  let u := TrialFunction V in
  let v := TestFunction V in
  FormSum (Integral (Product u v))
          (Integral (Product (FloatValue dt) (Dot (Grad u) (Grad v)))).

(** [L = (u_n + dt * f) * v * ufl.dx] *)
Definition L {FS : Type} (V : FS) : form FS :=
  let v := TestFunction V in
  Integral (Product (Sum (Coefficient coef_u_n)
                         (Product (FloatValue dt) (Coefficient coef_f))) v).

(** The arrays behind the coefficients of a form. *)
Definition coef_env (un fv : ndarray) (c : coefficient) : ndarray :=
  match c with
  | coef_u_n => un
  | coef_f => fv
  end.

(** ** The state of the notebook *)

(** [warped]: the points of the warped grid and its point data.  The point
    data is the array that [grid.point_data] was given, the one of
    [u_sol.x.array]: the state holds it a second time and every write to the
    array of [u_sol] writes it too. *)
Record Warped := mkWarped {
  points : list point;
  point_data : ndarray
}.

(** [plotter]: the name of the GIF it writes to, once opened. *)
Record Plotter := mkPlotter {
  mwriter : option string
}.

Section Notebook.

Context (lib : Library).

(** Globals that are bound once and only read afterwards. *)
Record Handles := mkHandles {
  domain : Mesh lib;
  V : FunctionSpace lib;
  fdim : Z;
  boundary_facets : list Z;
  bc : DirichletBC lib;
  grid : UnstructuredGrid lib
}.

(** The globals of the notebook when the time loop runs, with the files and
    the output produced so far.  [u_n], [f], [b] and [u_sol] are the arrays
    of the objects of these names; [u_sol.x.array] is also the storage of
    [u_sol.vector] and, through [grid.point_data], of the plotted grid. *)
Record State := mkState {
  handles : Handles;
  f_expr : TimeDependentSource.self;
  u_n : ndarray;
  t : Q;
  f : ndarray;
  A : Mat lib;
  b : ndarray;
  u_sol : ndarray;
  warped : Warped;
  plotter : Plotter;
  solver : KSP (Mat lib);
  files : gmap string (list (Frame lib));
  stdout : list string
}.

Definition set_f_expr (x : TimeDependentSource.self) (s : State) : State :=
  mkState (handles s) x (u_n s) (t s) (f s) (A s) (b s) (u_sol s) (warped s) (plotter s) (solver s) (files s) (stdout s).
Definition set_u_n (x : ndarray) (s : State) : State :=
  mkState (handles s) (f_expr s) x (t s) (f s) (A s) (b s) (u_sol s) (warped s) (plotter s) (solver s) (files s) (stdout s).
Definition set_t (x : Q) (s : State) : State :=
  mkState (handles s) (f_expr s) (u_n s) x (f s) (A s) (b s) (u_sol s) (warped s) (plotter s) (solver s) (files s) (stdout s).
Definition set_f (x : ndarray) (s : State) : State :=
  mkState (handles s) (f_expr s) (u_n s) (t s) x (A s) (b s) (u_sol s) (warped s) (plotter s) (solver s) (files s) (stdout s).
Definition set_b (x : ndarray) (s : State) : State :=
  mkState (handles s) (f_expr s) (u_n s) (t s) (f s) (A s) x (u_sol s) (warped s) (plotter s) (solver s) (files s) (stdout s).
Definition set_u_sol (x : ndarray) (s : State) : State :=
  mkState (handles s) (f_expr s) (u_n s) (t s) (f s) (A s) (b s) x (warped s) (plotter s) (solver s) (files s) (stdout s).
Definition set_warped (x : Warped) (s : State) : State :=
  mkState (handles s) (f_expr s) (u_n s) (t s) (f s) (A s) (b s) (u_sol s) x (plotter s) (solver s) (files s) (stdout s).
Definition set_plotter (x : Plotter) (s : State) : State :=
  mkState (handles s) (f_expr s) (u_n s) (t s) (f s) (A s) (b s) (u_sol s) (warped s) x (solver s) (files s) (stdout s).
Definition set_files (x : gmap string (list (Frame lib))) (s : State) : State :=
  mkState (handles s) (f_expr s) (u_n s) (t s) (f s) (A s) (b s) (u_sol s) (warped s) (plotter s) (solver s) x (stdout s).
Definition set_stdout (x : list string) (s : State) : State :=
  mkState (handles s) (f_expr s) (u_n s) (t s) (f s) (A s) (b s) (u_sol s) (warped s) (plotter s) (solver s) (files s) x.

(** The coefficient functions as the forms see them: [L] refers to the
    objects [u_n] and [f], so assembling it reads their current arrays. *)
Definition coefficients (s : State) : coefficient -> ndarray :=
  coef_env (u_n s) (f s).

(** [u.interpolate(g)]: dolfinx evaluates the callback at the interpolation
    points of the space, one per degree of freedom for a point-evaluation
    element, and stores the values in the array of [u]. *)
Definition interpolate (Vh : FunctionSpace lib) (u : ndarray) (g : point -> R)
  : outcome ndarray :=
  x <- interpolation_points lib Vh ;;
  vec_write u (map g x).

(** A write into the storage of [u_sol.vector]: the array of [u_sol] and,
    sharing it, the point data of the warped grid. *)
Definition write_u_sol (x : ndarray) (s : State) : outcome State :=
  x' <- vec_write (u_sol s) x ;;
  d <- vec_write (point_data (warped s)) x' ;;
  Done (set_warped (mkWarped (points (warped s)) d) (set_u_sol x' s)).

(** ** The body of the time loop, statement by statement *)

Inductive Stmt :=
| AdvanceTime        (* t += dt *)
| SetSourceTime      (* f_expr.t = t *)
| InterpolateSource  (* f.interpolate(f_expr.eval) *)
| ResetRhs           (* with b.localForm() as loc_b: loc_b.set(0) *)
| AssembleRhs        (* assemble_vector(b, fem.form(L)) *)
| ApplyLifting       (* apply_lifting(b, [fem.form(a)], [[bc]]) *)
| GhostUpdate        (* b.ghostUpdate(addv=ADD_VALUES, mode=REVERSE) *)
| SetBc              (* set_bc(b, [bc]) *)
| Solve              (* solver.solve(b, u_sol.vector) *)
| ScatterForward     (* u_sol.x.scatter_forward() *)
| UpdatePrevious     (* u_n.x.array[:] = u_sol.x.array[:] *)
| WarpPoints         (* new_warped = grid.warp_by_scalar("u_sol", factor=1)
                        warped.points[:, :] = new_warped.points *)
| CopyPointData      (* warped.point_data["u_sol"][:] = u_sol.x.array *)
| WriteFrame.        (* plotter.write_frame() *)

Definition exec (c : Stmt) (s : State) : outcome State :=
  match c with
  | AdvanceTime =>
      Done (set_t (t s + dt) s)
  | SetSourceTime =>
      Done (set_f_expr {| TimeDependentSource.t := t s |} s)
  | InterpolateSource =>
      f' <- interpolate (V (handles s)) (f s) (TimeDependentSource.eval (f_expr s)) ;;
      Done (set_f f' s)
  | ResetRhs =>
      Done (set_b (vec_set 0 (b s)) s)
  | AssembleRhs =>
      k <- assemble_linear_form lib (L (V (handles s))) (coefficients s) ;;
      b' <- vec_axpy (b s) k ;;
      Done (set_b b' s)
  | ApplyLifting =>
      k <- apply_lifting lib (b s) [a (V (handles s))] [[bc (handles s)]] ;;
      b' <- vec_write (b s) k ;;
      Done (set_b b' s)
  | GhostUpdate =>
      k <- ghostUpdate lib (b s) ADD_VALUES REVERSE ;;
      b' <- vec_write (b s) k ;;
      Done (set_b b' s)
  | SetBc =>
      k <- set_bc lib (b s) [bc (handles s)] ;;
      b' <- vec_write (b s) k ;;
      Done (set_b b' s)
  | Solve =>
      x <- ksp_solve lib (solver s) (b s) ;;
      write_u_sol x s
  | ScatterForward =>
      x <- scatter_forward lib (u_sol s) ;;
      write_u_sol x s
  | UpdatePrevious =>
      x <- np_assign (u_n s) (u_sol s) ;;
      Done (set_u_n x s)
  | WarpPoints =>
      new_warped <- warp_by_scalar lib (grid (handles s)) (u_sol s) 1 ;;
      p <- np_assign (points (warped s)) new_warped ;;
      Done (set_warped (mkWarped p (point_data (warped s))) s)
  | CopyPointData =>
      d <- np_assign (point_data (warped s)) (u_sol s) ;;
      Done (set_warped (mkWarped (points (warped s)) d) s)
  | WriteFrame =>
      match mwriter (plotter s) with
      | None => Raise "RuntimeError: This plotter has not opened a movie or GIF file."
      | Some name =>
          frame <- render lib (points (warped s)) (point_data (warped s)) ;;
          Done (set_files (<[name := default [] (files s !! name) ++ [frame]]> (files s)) s)
      end
  end.

(** The statements of the loop body, in the order of the source. *)
Definition loop_body : list Stmt :=
  [ AdvanceTime; SetSourceTime; InterpolateSource;
    ResetRhs; AssembleRhs; ApplyLifting; GhostUpdate; SetBc;
    Solve; ScatterForward;
    UpdatePrevious;
    WarpPoints; CopyPointData; WriteFrame ].

Fixpoint run_stmts (cs : list Stmt) (s : State) : outcome State :=
  match cs with
  | [] => Done s
  | c :: cs' => s' <- exec c s ;; run_stmts cs' s'
  end.

(** One pass of the loop body. *)
Definition step (s : State) : outcome State := run_stmts loop_body s.

(** [while t < T: ...], with a budget of iterations. *)
Fixpoint time_loop (fuel : nat) (s : State) : outcome State :=
  if Qlt_le_dec (t s) T then
    match fuel with
    | O => Timeout
    | S fuel' => s' <- step s ;; time_loop fuel' s'
    end
  else Done s.

(** [n] passes of the loop body in a row. *)
Fixpoint iterate (n : nat) (s : State) : outcome State :=
  match n with
  | O => Done s
  | S n' => s' <- step s ;; iterate n' s'
  end.

(** [plotter.close()] *)
Definition plotter_close (s : State) : outcome State :=
  match mwriter (plotter s) with
  | None => Done s
  | Some name =>
      _ <- gif_close lib name ;;
      Done (set_plotter (mkPlotter None) s)
  end.

(** [print(line)] *)
Definition print (line : string) (s : State) : outcome State :=
  Done (set_stdout (stdout s ++ [line]) s).

(** ** The cells before the loop *)

Fixpoint mapM {X Y : Type} (g : X -> outcome Y) (l : list X) : outcome (list Y) :=
  match l with
  | [] => Done []
  | x :: l' => y <- g x ;; ys <- mapM g l' ;; Done (y :: ys)
  end.

(** [row[j]] *)
Definition np_take {X : Type} (row : list X) (j : nat) : outcome X :=
  match nth_error row j with
  | Some x => Done x
  | None => Raise "IndexError: index is out of bounds"
  end.

(** [dst[:, :] = src] for [dst] of shape [(n, k)]. *)
Definition np_assign_2d (n k : nat) (src : list (list Z)) : outcome (list (list Z)) :=
  rows <- mapM (np_assign (repeat 0%Z k)) src ;;
  np_assign (repeat (repeat 0%Z k) n) rows.

(** Everything the notebook does before the time loop, cell by cell; the
    result is the state in which the loop starts.  The assignments to
    [u_n.name] and [u_sol.name] only label the functions and are left out.
    [grid.point_data["u_sol"] = u_sol.x.array] makes the grid read the array
    of [u_sol]: [warp_by_scalar] is given that array, and the warped grid it
    returns has that array as its point data. *)
Definition setup : outcome State :=
  (* Create the mesh and define the function space *)
  domain <- create_rectangle lib COMM_WORLD [[0; 0]; [2; 2]]%Z [nx; ny] triangle ;;
  V <- functionspace lib domain ("CR", 1%Z) ;;
  (* Boundary condition *)
  let fdim := (topology_dim lib domain - 2)%Z in
  boundary_facets <- locate_entities_boundary lib domain fdim (fun x => true) ;;
  dofs <- locate_dofs_topological lib V fdim boundary_facets ;;
  bc <- dirichletbc lib 0%R dofs V ;;
  (* Source term and initial condition *)
  let f_expr := TimeDependentSource.init 0 in
  u_n <- Function lib V ;;
  u_n <- interpolate V u_n initial_condition ;;
  (* Temporal parameters *)
  let t := 0%Q in
  (* Variational problem *)
  f <- Function lib V ;;
  f <- interpolate V f (TimeDependentSource.eval f_expr) ;;
  (* Assemble the linear system *)
  A <- assemble_matrix lib (a V) ;;
  A <- mat_assemble lib A ;;
  b <- create_vector lib (L V) ;;
  (* Solution variable *)
  u_sol <- Function lib V ;;
  u_sol <- interpolate V u_sol initial_condition ;;
  (* Topology of the mesh for the plot *)
  let tdim := topology_dim lib domain in
  n <- index_map_size_local lib domain tdim ;;
  let entities := seq 0 n in
  let num_dofs_per_cell := dof_layout_num_dofs lib V in
  let cell_type := topology_cell_type lib domain in
  p <- perm_vtk lib cell_type num_dofs_per_cell ;;
  let perm := np_argsort p in
  n' <- index_map_size_local lib domain tdim ;;
  let cell_types := repeat (cell_type_code lib triangle) n' in
  let dofmap_ := dofmap_list lib V in
  sel <- mapM (fun row => mapM (np_take row) perm) (firstn (length entities) dofmap_) ;;
  rows <- np_assign_2d (length entities) num_dofs_per_cell sel ;;
  let topology := map (fun row => Z.of_nat num_dofs_per_cell :: row) rows in
  let cells := concat topology in
  geometry <- tabulate_dof_coordinates lib V ;;
  (* Visualization with pyvista *)
  _ <- start_xvfb lib ;;
  grid <- new_UnstructuredGrid lib cells cell_types geometry ;;
  _ <- new_Plotter lib ;;
  _ <- gif_writer lib "u_sol.gif" 15%Z ;;
  let plotter := mkPlotter (Some "u_sol.gif") in
  let files : gmap string (list (Frame lib)) := {["u_sol.gif" := []]} in
  warped_points <- warp_by_scalar lib grid u_sol 1%R ;;
  let warped := mkWarped warped_points u_sol in
  viridis <- get_cmap_resampled lib "viridis" 25 ;;
  m <- py_max u_sol ;;
  _ <- add_mesh lib (points warped) (point_data warped) viridis (0%R, m) ;;
  (* Linear solver *)
  let solver := KSP_create (mesh_comm lib domain) in
  let solver := setOperators A solver in
  let solver := setType PREONLY solver in
  let solver := getPC_setType LU solver in
  Done (mkState (mkHandles domain V fdim boundary_facets bc grid)
                f_expr u_n t f A b u_sol warped plotter solver files []).

(** The whole notebook. *)
Definition main (fuel : nat) : outcome State :=
  s <- setup ;;
  s <- time_loop fuel s ;;
  s <- plotter_close s ;;
  print "Simulation complete." s.

End Notebook.

Arguments handles {lib} s.
Arguments f_expr {lib} s.
Arguments u_n {lib} s.
Arguments t {lib} s.
Arguments f {lib} s.
Arguments A {lib} s.
Arguments b {lib} s.
Arguments u_sol {lib} s.
Arguments warped {lib} s.
Arguments plotter {lib} s.
Arguments solver {lib} s.
Arguments files {lib} s.
Arguments stdout {lib} s.
Arguments domain {lib} h.
Arguments V {lib} h.
Arguments fdim {lib} h.
Arguments boundary_facets {lib} h.
Arguments bc {lib} h.
Arguments grid {lib} h.
Arguments set_f_expr {lib} x s.
Arguments set_u_n {lib} x s.
Arguments set_t {lib} x s.
Arguments set_f {lib} x s.
Arguments set_b {lib} x s.
Arguments set_u_sol {lib} x s.
Arguments set_warped {lib} x s.
Arguments set_plotter {lib} x s.
Arguments set_files {lib} x s.
Arguments set_stdout {lib} x s.
Arguments mkState {lib}.
Arguments mkHandles {lib}.

(** ** The clock of the loop in binary64

    The same [t], [T], [num_steps] and [dt] as Python computes them, in IEEE
    754 double precision, and the part of the loop that decides how often it
    runs: the test [t < T] and the update [t += dt].  [clock] returns the
    value of [t] at the exit and the number of passes made. *)
Module Binary64.

Definition T : float := 3.0%float.
Definition num_steps : float := 200%float.
Definition dt : float := (T / num_steps)%float.

Fixpoint clock (fuel : nat) (t : float) (passes : nat) : option (float * nat) :=
  if (t <? T)%float then
    match fuel with
    | O => None
    | S fuel' => clock fuel' (t + dt)%float (S passes)
    end
  else Some (t, passes).

End Binary64.

(** ** A small instance of the libraries

    One triangle with corners (0,0), (2,0), (0,2): three degrees of freedom,
    at the midpoints of the edges.  The mass matrix is the identity and the
    stiffness and load contributions are dropped, so assembling [L] returns
    [u_n] and solving returns the right-hand side.  [solve_error] makes the
    linear solve raise.  The instance is used to run the notebook on concrete
    data. *)
Module OneTriangle.

Definition midpoints : list point := [[1; 0; 0]; [0; 1; 0]; [1; 1; 0]]%R.

Definition lib (solve_error : option exn) : Library := {|
  Mesh := CellType;
  FunctionSpace := unit;
  DirichletBC := list Z;
  Mat := unit;
  UnstructuredGrid := unit;
  Colormap := unit;
  Frame := ndarray;
  create_rectangle := fun _ _ _ cell => Ok cell;
  mesh_comm := fun _ => COMM_WORLD;
  topology_cell_type := fun m => m;
  index_map_size_local := fun _ _ => Ok 1%nat;
  locate_entities_boundary := fun _ _ _ => Ok [0; 1; 2]%Z;
  functionspace := fun _ _ => Ok tt;
  Function := fun _ => Ok [0; 0; 0]%R;
  interpolation_points := fun _ => Ok midpoints;
  tabulate_dof_coordinates := fun _ => Ok midpoints;
  dof_layout_num_dofs := fun _ => 3%nat;
  dofmap_list := fun _ => [[0; 1; 2]%Z];
  locate_dofs_topological := fun _ _ _ => Ok [];
  dirichletbc := fun _ dofs _ => Ok dofs;
  assemble_matrix := fun _ => Ok tt;
  mat_assemble := fun m => Ok m;
  create_vector := fun _ => Ok [0; 0; 0]%R;
  assemble_linear_form := fun _ coef => Ok (coef coef_u_n);
  apply_lifting := fun v _ _ => Ok v;
  ghostUpdate := fun v _ _ => Ok v;
  set_bc := fun v _ => Ok v;
  ksp_solve := fun _ v =>
    match solve_error with
    | Some e => Error e
    | None => Ok v
    end;
  scatter_forward := fun v => Ok v;
  perm_vtk := fun _ n => Ok (seq 0 n);
  cell_type_code := fun _ => 5%Z;
  start_xvfb := Ok tt;
  new_UnstructuredGrid := fun _ _ _ => Ok tt;
  new_Plotter := Ok tt;
  gif_writer := fun _ _ => Ok tt;
  warp_by_scalar := fun _ _ _ => Ok midpoints;
  get_cmap_resampled := fun _ _ => Ok tt;
  add_mesh := fun _ _ _ _ => Ok tt;
  render := fun _ data => Ok data;
  gif_close := fun _ => Ok tt
|}.

(** Constant fields over a domain of measure one: the integral of a field
    is its value and gradients vanish. *)
Definition constants : FieldAlgebra := {|
  Fld := R;
  VFld := R;
  fconst := fun c => c;
  fadd := Rplus;
  fmul := Rmult;
  vdot := Rmult;
  grad := fun _ => 0%R;
  integral := fun g => g
|}.

(** The state in which the loop starts on this instance. *)
Definition s0 (solve_error : option exn) : State (lib solve_error) :=
  mkState (lib := lib solve_error)
    (mkHandles (lib := lib solve_error) triangle tt 0%Z [0; 1; 2]%Z [] tt)
    (TimeDependentSource.init 0)
    (map initial_condition midpoints)
    0%Q
    (map (TimeDependentSource.eval (TimeDependentSource.init 0)) midpoints)
    tt
    [0; 0; 0]%R
    (map initial_condition midpoints)
    (mkWarped midpoints (map initial_condition midpoints))
    (mkPlotter (Some "u_sol.gif"))
    (mkKSP COMM_WORLD (Some tt) (Some PREONLY) (Some LU))
    {["u_sol.gif" := []]}
    [].

End OneTriangle.

(** * Vocabulary of the properties *)

(** ** What each statement of the loop body writes *)

(** The objects the loop can reach. *)
Inductive Obj :=
| o_handles | o_f_expr | o_u_n | o_t | o_f | o_A | o_b | o_u_sol
| o_warped | o_plotter | o_solver | o_files | o_stdout.

(** [same_at o s s']: the object [o] has the same contents in both states. *)
Definition same_at {lib : Library} (o : Obj) (s s' : State lib) : Prop :=
  match o with
  | o_handles => handles s' = handles s
  | o_f_expr => f_expr s' = f_expr s
  | o_u_n => u_n s' = u_n s
  | o_t => t s' = t s
  | o_f => f s' = f s
  | o_A => A s' = A s
  | o_b => b s' = b s
  | o_u_sol => u_sol s' = u_sol s
  | o_warped => warped s' = warped s
  | o_plotter => plotter s' = plotter s
  | o_solver => solver s' = solver s
  | o_files => files s' = files s
  | o_stdout => stdout s' = stdout s
  end.

(** The table of effects: the objects each statement assigns to.  The solve
    and the scatter write the array of [u_sol], and with it the point data of
    the warped grid, which shares its storage. *)
Definition writes (c : Stmt) (o : Obj) : bool :=
  match c, o with
  | AdvanceTime, o_t
  | SetSourceTime, o_f_expr
  | InterpolateSource, o_f
  | (ResetRhs | AssembleRhs | ApplyLifting | GhostUpdate | SetBc), o_b
  | (Solve | ScatterForward), (o_u_sol | o_warped)
  | UpdatePrevious, o_u_n
  | (WarpPoints | CopyPointData), o_warped
  | WriteFrame, o_files => true
  | _, _ => false
  end.

#[global] Instance Stmt_eq_dec : EqDecision Stmt.
Proof. solve_decision. Defined.

(** The loop never rebinds the handles, the matrix, the solver, the plotter
    or the printed output. *)
Definition unchanged_by_loop {lib : Library} (s0 s : State lib) : Prop :=
  handles s = handles s0 /\ A s = A s0 /\ solver s = solver s0
  /\ plotter s = plotter s0 /\ stdout s = stdout s0.

(** After [n] passes, the GIF opened before the loop holds [n] frames and is
    the only file. *)
Definition gif_holds {lib : Library} (n : nat) (s : State lib) : Prop :=
  plotter s = mkPlotter (Some "u_sol.gif")
  /\ exists frames : list (Frame lib),
       files s = {["u_sol.gif" := frames]} /\ length frames = n.

(** The source as the problem statement writes it:
    [f(x, t) = -exp(-t) * (x0*x1*(x0-2)*(x1-2) + 2*x0*(x0-2) + 2*x1*(x1-2))]. *)
Definition source (time : Q) (x : point) : R :=
  (- exp (- Q2R time)
   * (x.[0] * x.[1] * (x.[0] - 2) * (x.[1] - 2)
      + 2 * x.[0] * (x.[0] - 2) + 2 * x.[1] * (x.[1] - 2)))%R.

(** Whether a computation returned. *)
Definition returns {X : Type} (m : outcome X) : bool :=
  match m with
  | Done _ => true
  | _ => false
  end.

(** ** The exact solution behind the source term *)

(** [exp(-t) * u0(x)]: the function whose initial value is the initial
    condition of the notebook. *)
Definition exact_solution (time : R) (x : point) : R :=
  (exp (- time) * initial_condition x)%R.

(** ** Forms and the function algebra *)

(** Whether an expression, or a form, mentions no coefficient function. *)
Fixpoint expr_coefficient_free {FS : Type} {sh : shape} (e : expr FS sh) : bool :=
  match e with
  | TrialFunction _ | TestFunction _ | FloatValue _ => true
  | Coefficient _ => false
  | Sum e1 e2 | Product e1 e2 | Dot e1 e2 =>
      expr_coefficient_free e1 && expr_coefficient_free e2
  | Grad e1 => expr_coefficient_free e1
  end.

Fixpoint coefficient_free {FS : Type} (F : form FS) : bool :=
  match F with
  | Integral e => expr_coefficient_free e
  | FormSum f1 f2 => coefficient_free f1 && coefficient_free f2
  end.

(** The products of fields are symmetric and the integral of a square is
    not negative. *)
Record inner_products (K : FieldAlgebra) : Prop := {
  fmul_comm : forall u v : Fld K, fmul K u v = fmul K v u;
  vdot_comm : forall g h : VFld K, vdot K g h = vdot K h g;
  mass_nonneg : forall u : Fld K, (0 <= integral K (fmul K u u))%R;
  stiffness_nonneg : forall g : VFld K, (0 <= integral K (vdot K g g))%R
}.

(** The integral is additive and the product of fields distributes over
    sums and is associative. *)
Record linear_integral (K : FieldAlgebra) : Prop := {
  integral_additive :
    forall g h : Fld K, integral K (fadd K g h) = (integral K g + integral K h)%R;
  fmul_distributes :
    forall g h v : Fld K, fmul K (fadd K g h) v = fadd K (fmul K g v) (fmul K h v);
  fmul_assoc :
    forall g h v : Fld K, fmul K (fmul K g h) v = fmul K g (fmul K h v)
}.

(** ** The cell array of the plotted grid *)

(** The flat array [cells] that the notebook builds for pyvista from the
    number of cells [n], the number of degrees of freedom per cell [k], the
    rows of the dofmap and the permutation [perm]: for every cell, [k]
    followed by the permuted row. *)
Definition vtk_cells (n k : nat) (dofmap_ : list (list Z)) (perm : list nat)
  : outcome (list Z) :=
  let entities := seq 0 n in
  sel <- mapM (fun row => mapM (np_take row) perm) (firstn (length entities) dofmap_) ;;
  rows <- np_assign_2d (length entities) k sel ;;
  let topology := map (fun row => Z.of_nat k :: row) rows in
  Done (concat topology).

(** * Properties *)

(** ** Outcomes and sequencing *)

Lemma bind_Done_inv {X Y : Type} (m : outcome X) (k : X -> outcome Y) (y : Y) :
  bind m k = Done y -> exists x, m = Done x /\ k x = Done y.
Proof. destruct m; simpl; intros H; try discriminate; eauto. Qed.

Lemma call_Done_inv {X : Type} (r : result X) (x : X) : call r = Done x -> r = Ok x.
Proof. destruct r; simpl; intros H; inversion H; reflexivity. Qed.

Lemma call_not_timeout {X : Type} (r : result X) : call r <> Timeout.
Proof. destruct r; discriminate. Qed.

Lemma bind_Raise_l {X Y : Type} (m : outcome X) (k : X -> outcome Y) (e : exn) :
  m = Raise e -> bind m k = Raise e.
Proof. intros ->; reflexivity. Qed.

Lemma bind_Done_l {X Y : Type} (m : outcome X) (k : X -> outcome Y) (x : X) :
  m = Done x -> bind m k = k x.
Proof. intros ->; reflexivity. Qed.

(** Takes apart a hypothesis saying that a sequence of calls returned. *)
Ltac outcome_inv :=
  repeat match goal with
  | H : Done _ = Done _ |- _ => inversion H; subst; clear H
  | H : Raise _ = Done _ |- _ => discriminate H
  | H : Timeout = Done _ |- _ => discriminate H
  | H : bind ?m _ = Done _ |- _ =>
      let x := fresh "x" in
      let E := fresh "E" in
      apply bind_Done_inv in H; destruct H as (x & E & H)
  | H : call _ = Done _ |- _ => apply call_Done_inv in H
  | H : write_u_sol _ _ _ = Done _ |- _ => unfold write_u_sol in H
  | H : match ?o with Some _ => _ | None => _ end = Done _ |- _ =>
      let E := fresh "E" in destruct o eqn:E
  end.

(** ** Arrays *)

Lemma np_assign_length {X : Type} (dst src r : list X) :
  np_assign dst src = Done r -> length r = length dst.
Proof.
  unfold np_assign. destruct (Nat.eqb_spec (length src) (length dst)) as [E | E].
  - intros H; inversion H; subst; exact E.
  - destruct src as [| x [| y src']]; intros H; inversion H; subst.
    apply repeat_length.
Qed.

Lemma np_assign_same_shape {X : Type} (dst src : list X) :
  length src = length dst -> np_assign dst src = Done src.
Proof. intros E. unfold np_assign. rewrite E, Nat.eqb_refl. reflexivity. Qed.

Lemma vec_write_inv (dst src r : ndarray) :
  vec_write dst src = Done r -> r = src /\ length r = length dst.
Proof.
  unfold vec_write. destruct (Nat.eqb_spec (length src) (length dst)) as [E | E];
    intros H; inversion H; subst; auto.
Qed.

Lemma vec_write_conforming (dst src : ndarray) :
  length src = length dst -> vec_write dst src = Done src.
Proof. intros E. unfold vec_write. rewrite E, Nat.eqb_refl. reflexivity. Qed.

Lemma vec_set_length (alpha : R) (v : ndarray) : length (vec_set alpha v) = length v.
Proof. unfold vec_set. apply length_map. Qed.

Lemma vec_set_same_length (alpha : R) (v w : ndarray) :
  length v = length w -> vec_set alpha v = vec_set alpha w.
Proof.
  unfold vec_set. revert w. induction v as [| x v IH]; intros [| y w] E;
    simpl in *; try discriminate; [reflexivity |].
  f_equal. apply IH. congruence.
Qed.

(** Adding into a zeroed vector leaves what was added. *)
Lemma zero_plus_vector (v k : ndarray) :
  length k = length v -> zip_with Rplus (vec_set 0 v) k = k.
Proof.
  unfold vec_set. revert k. induction v as [| x v IH]; intros [| y k] E;
    simpl in *; try discriminate; [reflexivity |].
  rewrite Rplus_0_l. f_equal. apply IH. congruence.
Qed.

Lemma vec_axpy_inv (v w r : ndarray) :
  vec_axpy v w = Done r -> r = zip_with Rplus v w /\ length w = length v.
Proof.
  unfold vec_axpy. destruct (Nat.eqb_spec (length w) (length v)) as [E | E];
    intros H; inversion H; subst; auto.
Qed.

Lemma vec_axpy_length (v w r : ndarray) : vec_axpy v w = Done r -> length r = length v.
Proof.
  intros H. apply vec_axpy_inv in H as [-> E].
  rewrite length_zip_with. lia.
Qed.

Section Frames.

Context (lib : Library).
Implicit Types (s : State lib) (c : Stmt) (o : Obj).

Lemma same_at_refl o s : same_at o s s.
Proof. destruct o; reflexivity. Qed.

Lemma same_at_trans o s1 s2 s3 : same_at o s1 s2 -> same_at o s2 s3 -> same_at o s1 s3.
Proof. destruct o; simpl; congruence. Qed.

(** A statement leaves alone every object that the table does not list
    for it. *)
Lemma exec_frame c o s s' :
  writes c o = false -> exec lib c s = Done s' -> same_at o s s'.
Proof.
  destruct c, o; simpl; intros W H; try discriminate W;
    outcome_inv; reflexivity.
Qed.

Lemma run_stmts_frame cs o s s' :
  forallb (fun c => negb (writes c o)) cs = true ->
  run_stmts lib cs s = Done s' -> same_at o s s'.
Proof.
  revert s. induction cs as [| c cs IH]; simpl; intros s W H.
  - inversion H; subst. apply same_at_refl.
  - apply andb_prop in W as [Wc Wcs]. apply negb_true_iff in Wc.
    apply bind_Done_inv in H as (s1 & E1 & H).
    eapply same_at_trans; [eapply exec_frame; eauto | eauto].
Qed.

Lemma run_stmts_app cs1 cs2 s :
  run_stmts lib (cs1 ++ cs2) s = (s1 <- run_stmts lib cs1 s ;; run_stmts lib cs2 s1).
Proof.
  revert s. induction cs1 as [| c cs1 IH]; simpl; intros s; [reflexivity |].
  destruct (exec lib c s); simpl; auto.
Qed.

Lemma exec_not_timeout c s : exec lib c s <> Timeout.
Proof.
  destruct c; simpl; unfold write_u_sol, interpolate, vec_write, vec_axpy, np_assign;
    repeat match goal with
    | |- context [call ?r] => destruct r; simpl
    | |- context [match mwriter ?p with _ => _ end] => destruct (mwriter p); simpl
    | |- context [if ?x then _ else _] => destruct x; simpl
    | |- context [match ?l with [] => _ | _ :: _ => _ end] => destruct l; simpl
    end; discriminate.
Qed.

Lemma run_stmts_not_timeout cs s : run_stmts lib cs s <> Timeout.
Proof.
  revert s. induction cs as [| c cs IH]; simpl; intros s; [discriminate |].
  destruct (exec lib c s) eqn:E; simpl; auto; try discriminate.
  exfalso. eapply exec_not_timeout; eauto.
Qed.

Lemma iterate_not_timeout n s : iterate lib n s <> Timeout.
Proof.
  revert s. induction n as [| n IH]; simpl; intros s; [discriminate |].
  destruct (step lib s) eqn:E; simpl; auto; try discriminate.
  exfalso. eapply run_stmts_not_timeout; eauto.
Qed.

(** *** The clock *)

Lemma dt_value : dt == 3 # 200.
Proof. reflexivity. Qed.

Lemma run_stmts_cons c cs s :
  run_stmts lib (c :: cs) s = (s1 <- exec lib c s ;; run_stmts lib cs s1).
Proof. reflexivity. Qed.

Lemma step_t s s' : step lib s = Done s' -> t s' = (t s + dt)%Q.
Proof.
  unfold step, loop_body. rewrite run_stmts_cons. intros H.
  apply bind_Done_inv in H as (s1 & E1 & H).
  apply (run_stmts_frame _ o_t) in H; [| reflexivity].
  simpl in E1, H. inversion E1; subst. exact H.
Qed.

Lemma iterate_t n s s' :
  iterate lib n s = Done s' -> t s' == t s + inject_Z (Z.of_nat n) * dt.
Proof.
  revert s. induction n as [| n IH]; intros s H.
  - simpl in H. inversion H; subst. simpl. unfold inject_Z. ring.
  - simpl in H. apply bind_Done_inv in H as (s1 & E1 & H).
    apply IH in H. apply step_t in E1. rewrite H, E1.
    rewrite Nat2Z.inj_succ, <- Z.add_1_r, inject_Z_plus. ring.
Qed.

(** With [n] steps of [dt] left before [T], the loop is [n] passes of its
    body, whatever budget is left beyond [n]. *)
Lemma time_loop_unroll n fuel s :
  t s + inject_Z (Z.of_nat n) * dt == T -> (n <= fuel)%nat ->
  time_loop lib fuel s = iterate lib n s.
Proof.
  revert fuel s. induction n as [| n IH]; intros fuel s Ht Hfuel.
  - assert (Hs : t s == T) by (rewrite <- Ht; simpl; unfold inject_Z; ring).
    destruct fuel; simpl; destruct (Qlt_le_dec (t s) T) as [Hlt | Hle];
      try reflexivity; rewrite Hs in Hlt; exfalso; eapply Qlt_irrefl; eauto.
  - rewrite Nat2Z.inj_succ, <- Z.add_1_r, inject_Z_plus in Ht.
    assert (Hpos : (0 <= inject_Z (Z.of_nat n))%Q).
    { change 0%Q with (inject_Z 0). rewrite <- Zle_Qle. lia. }
    assert (Hlt : (t s < T)%Q).
    { rewrite <- Ht, dt_value. change (inject_Z 1) with 1%Q.
      revert Hpos. generalize (inject_Z (Z.of_nat n)). intros q Hq. lra. }
    destruct fuel as [| fuel]; [lia |]. simpl.
    destruct (Qlt_le_dec (t s) T) as [_ | Hle]; [| exfalso; lra].
    destruct (step lib s) as [s1 | e |] eqn:E1; simpl; try reflexivity.
    apply IH; [| lia]. apply step_t in E1. rewrite E1, <- Ht. ring.
Qed.

End Frames.

(** ** The state in which the loop starts *)

Section Setup.

Context (lib : Library).
Implicit Types (s : State lib).

Lemma interpolate_inv (Vh : FunctionSpace lib) (u r : ndarray) (g : point -> R) :
  interpolate lib Vh u g = Done r ->
  exists x, interpolation_points lib Vh = Ok x /\ r = map g x /\ length r = length u.
Proof.
  unfold interpolate. intros H. outcome_inv.
  apply vec_write_inv in H as [-> Hlen]. eauto.
Qed.

(** What a completed [setup] has called, and the state it leaves. *)
Lemma setup_inv s0 :
  setup lib = Done s0 ->
  exists dom Vh facets dofs x A1,
    create_rectangle lib COMM_WORLD [[0; 0]; [2; 2]]%Z [nx; ny] triangle = Ok dom
    /\ functionspace lib dom ("CR", 1%Z) = Ok Vh
    /\ locate_entities_boundary lib dom (topology_dim lib dom - 2)%Z (fun _ => true)
       = Ok facets
    /\ locate_dofs_topological lib Vh (topology_dim lib dom - 2)%Z facets = Ok dofs
    /\ dirichletbc lib 0%R dofs Vh = Ok (bc (handles s0))
    /\ interpolation_points lib Vh = Ok x
    /\ assemble_matrix lib (a Vh) = Ok A1
    /\ mat_assemble lib A1 = Ok (A s0)
    /\ create_vector lib (L Vh) = Ok (b s0)
    /\ domain (handles s0) = dom
    /\ V (handles s0) = Vh
    /\ fdim (handles s0) = (topology_dim lib dom - 2)%Z
    /\ boundary_facets (handles s0) = facets
    /\ f_expr s0 = TimeDependentSource.init 0
    /\ t s0 = 0%Q
    /\ u_n s0 = map initial_condition x
    /\ u_sol s0 = map initial_condition x
    /\ f s0 = map (TimeDependentSource.eval (TimeDependentSource.init 0)) x
    /\ solver s0 = mkKSP (mesh_comm lib dom) (Some (A s0)) (Some PREONLY) (Some LU)
    /\ plotter s0 = mkPlotter (Some "u_sol.gif")
    /\ files s0 = {["u_sol.gif" := []]}
    /\ stdout s0 = [].
Proof.
  unfold setup. intros H. cbv zeta in H.
  repeat match goal with
  | H : bind (interpolate _ _ _ _) _ = Done _ |- _ =>
      let r := fresh "r" in
      let E := fresh "E" in
      apply bind_Done_inv in H as (r & E & H);
      apply interpolate_inv in E as (? & ? & ? & ?)
  | H : bind _ _ = Done _ |- _ =>
      let r := fresh "r" in
      let E := fresh "E" in
      apply bind_Done_inv in H as (r & E & H); try apply call_Done_inv in E
  end.
  inversion H; subst; clear H. simpl.
  repeat match goal with
  | H1 : ?c = Ok ?x, H2 : ?c = Ok ?y |- _ =>
      assert (x = y) by congruence; subst; clear H2
  end.
  do 6 eexists. repeat split; eauto.
Qed.

End Setup.

(** ** One pass of the loop body *)

Section Step.

Context (lib : Library).
Implicit Types (s : State lib).

Ltac project :=
  cbn [handles f_expr u_n t f A b u_sol warped plotter solver files stdout
       set_f_expr set_u_n set_t set_f set_b set_u_sol set_warped set_plotter
       set_files set_stdout points point_data] in *.

(** The calls made by one completed pass, in order, and the state it
    leaves: a symbolic run of [loop_body]. *)
Lemma step_inv s s' :
  step lib s = Done s' ->
  exists x k b1 b2 b3 y y' un new_warped p d name frame,
    let f1 := map (TimeDependentSource.eval {| TimeDependentSource.t := t s + dt |}) x in
    interpolation_points lib (V (handles s)) = Ok x
    /\ length f1 = length (f s)
    /\ assemble_linear_form lib (L (V (handles s))) (coef_env (u_n s) f1) = Ok k
    /\ length k = length (b s)
    /\ apply_lifting lib k [a (V (handles s))] [[bc (handles s)]] = Ok b1
    /\ ghostUpdate lib b1 ADD_VALUES REVERSE = Ok b2
    /\ set_bc lib b2 [bc (handles s)] = Ok b3
    /\ length b3 = length (b s)
    /\ ksp_solve lib (solver s) b3 = Ok y
    /\ scatter_forward lib y = Ok y'
    /\ length y' = length (u_sol s)
    /\ np_assign (u_n s) y' = Done un
    /\ warp_by_scalar lib (grid (handles s)) y' 1 = Ok new_warped
    /\ np_assign (points (warped s)) new_warped = Done p
    /\ np_assign (point_data (warped s)) y' = Done d
    /\ mwriter (plotter s) = Some name
    /\ render lib p d = Ok frame
    /\ s' = mkState (handles s) {| TimeDependentSource.t := t s + dt |} un
              (t s + dt)%Q f1 (A s) b3 y' (mkWarped p d) (plotter s) (solver s)
              (<[name := default [] (files s !! name) ++ [frame]]> (files s))
              (stdout s).
Proof.
  unfold step, loop_body. simpl. intros H. outcome_inv. project.
  unfold coefficients in *. project.
  repeat match goal with
  | H : interpolate _ _ _ _ = Done _ |- _ => apply interpolate_inv in H as (? & ? & ? & ?)
  | H : vec_write _ _ = Done _ |- _ => apply vec_write_inv in H as [? ?]
  | H : vec_axpy _ _ = Done _ |- _ => apply vec_axpy_inv in H as [? ?]
  end.
  subst. rewrite zero_plus_vector in * by (rewrite vec_set_length in *; congruence).
  rewrite vec_set_length in *.
  match goal with
  | H : np_assign ?v ?v = Done _ |- _ =>
      rewrite np_assign_same_shape in H by reflexivity; inversion H; subst; clear H
  end.
  do 13 eexists. cbv zeta.
  repeat match goal with |- _ /\ _ => split end; eauto;
    try (apply np_assign_same_shape); congruence.
Qed.

End Step.

(** ** Invariants of the loop *)

Section Loop.

Context (lib : Library).
Implicit Types (s : State lib).

Lemma step_frame o s s' :
  forallb (fun c => negb (writes c o)) loop_body = true ->
  step lib s = Done s' -> same_at o s s'.
Proof. intros W H. eapply run_stmts_frame; eauto. Qed.

(** Induction over the passes of the loop. *)
Lemma iterate_invariant (P : State lib -> Prop) n s s' :
  (forall r r', P r -> step lib r = Done r' -> P r') ->
  P s -> iterate lib n s = Done s' -> P s'.
Proof.
  intros Hstep. revert s. induction n as [| n IH]; simpl; intros s HP H.
  - inversion H; subst; exact HP.
  - apply bind_Done_inv in H as (s1 & E1 & H). eauto.
Qed.

Lemma iterate_S_r n s :
  iterate lib (S n) s = (s1 <- iterate lib n s ;; step lib s1).
Proof.
  revert s. induction n as [| n IH]; intros s.
  - simpl. destruct (step lib s); reflexivity.
  - change (iterate lib (S (S n)) s) with (s1 <- step lib s ;; iterate lib (S n) s1).
    change (iterate lib (S n) s) with (s1 <- step lib s ;; iterate lib n s1).
    destruct (step lib s) as [s1 | e |]; cbn [bind]; [apply IH | reflexivity | reflexivity].
Qed.

Lemma step_unchanged s s' : step lib s = Done s' -> unchanged_by_loop s s'.
Proof.
  intros H. unfold unchanged_by_loop.
  pose proof (step_frame o_handles _ _ eq_refl H).
  pose proof (step_frame o_A _ _ eq_refl H).
  pose proof (step_frame o_solver _ _ eq_refl H).
  pose proof (step_frame o_plotter _ _ eq_refl H).
  pose proof (step_frame o_stdout _ _ eq_refl H).
  auto.
Qed.

Lemma iterate_unchanged n s0 s : iterate lib n s0 = Done s -> unchanged_by_loop s0 s.
Proof.
  apply (iterate_invariant (unchanged_by_loop s0)).
  - intros r r' (H1 & H2 & H3 & H4 & H5) H.
    apply step_unchanged in H as (G1 & G2 & G3 & G4 & G5).
    unfold unchanged_by_loop. repeat split; congruence.
  - unfold unchanged_by_loop. auto.
Qed.

(** The arrays keep their sizes, and [u_n] and [u_sol] have the same one. *)
Lemma step_same_shape s s' :
  step lib s = Done s' ->
  length (u_n s) = length (u_sol s) -> length (u_n s') = length (u_sol s').
Proof.
  intros H E. apply step_inv in H.
  destruct H as (x & k & b1 & b2 & b3 & y & y' & un & nw & p & d & name & frame & H).
  cbv zeta in H. decompose [and] H; clear H. subst s'. simpl.
  match goal with H : np_assign (u_n s) _ = Done _ |- _ => apply np_assign_length in H end.
  congruence.
Qed.

Lemma setup_same_shape s0 : setup lib = Done s0 -> length (u_n s0) = length (u_sol s0).
Proof.
  intros H. apply setup_inv in H.
  destruct H as (dom & Vh & facets & dofs & x & A1 & H).
  decompose [and] H; clear H. congruence.
Qed.

Lemma iterate_same_shape n s0 s :
  setup lib = Done s0 -> iterate lib n s0 = Done s -> length (u_n s) = length (u_sol s).
Proof.
  intros H0 H.
  apply (iterate_invariant (fun r => length (u_n r) = length (u_sol r)) n s0 s); auto.
  - intros r r' E Hr. eapply step_same_shape; eauto.
  - apply setup_same_shape; auto.
Qed.

(** The clock after [n] passes, and the loop test there. *)
Lemma iterate_clock n s0 s :
  t s0 == 0 -> iterate lib n s0 = Done s ->
  t s == inject_Z (Z.of_nat n) * dt /\ ((t s < T)%Q <-> (n < 200)%nat).
Proof.
  intros H0 H. apply iterate_t in H. rewrite H0 in H.
  assert (E : t s == inject_Z (Z.of_nat n) * dt) by (rewrite H; ring).
  split; [exact E |]. rewrite E, dt_value. unfold T.
  assert (G : (inject_Z (Z.of_nat n) < inject_Z 200)%Q <-> (n < 200)%nat).
  { rewrite <- Zlt_Qlt. lia. }
  rewrite <- G. change (inject_Z 200) with 200%Q.
  generalize (inject_Z (Z.of_nat n)). intros q. split; intros; lra.
Qed.

End Loop.

(** * The claims *)

(** ** Running the small instance *)

Lemma returns_Done {X : Type} (m : outcome X) :
  returns m = true -> exists x, m = Done x.
Proof. destruct m; simpl; intros H; try discriminate; eauto. Qed.

Lemma one_triangle_setup (e : option exn) : setup (OneTriangle.lib e) = Done (OneTriangle.s0 e).
Proof. reflexivity. Qed.

Lemma one_triangle_loop_returns :
  returns (time_loop (OneTriangle.lib None) 200 (OneTriangle.s0 None)) = true.
Proof. vm_compute. reflexivity. Qed.

Lemma one_triangle_step_returns : returns (step (OneTriangle.lib None) (OneTriangle.s0 None)) = true.
Proof. vm_compute. reflexivity. Qed.

(** ** The time loop *)

(** C5.  The loop [while t < T: t += dt; ...] with [T = 3], [num_steps = 200]
    and [dt = T / num_steps > 0] terminates: from the state left by the cells
    before it, any budget of at least 200 iterations is enough, and the loop
    is exactly 200 passes of its body.  After [n] passes the clock is
    [n * dt], so the test [t < T] holds exactly for [n < 200], and the loop
    exits with [t = T].  If no pass raises, the loop returns. *)
Theorem time_loop_runs_num_steps (lib : Library) (s0 : State lib) (fuel : nat) :
  setup lib = Done s0 -> (200 <= fuel)%nat ->
  (0 < dt)%Q
  /\ time_loop lib fuel s0 = iterate lib 200 s0
  /\ time_loop lib fuel s0 <> Timeout
  /\ (forall n s, iterate lib n s0 = Done s ->
        t s == inject_Z (Z.of_nat n) * dt /\ ((t s < T)%Q <-> (n < 200)%nat))
  /\ (forall s', time_loop lib fuel s0 = Done s' -> t s' == T)
  /\ ((forall n s, (n < 200)%nat -> iterate lib n s0 = Done s ->
         exists s', step lib s = Done s') ->
      exists s', time_loop lib fuel s0 = Done s' /\ t s' == T).
Proof.
  intros Hsetup Hfuel.
  assert (Ht0 : t s0 == 0).
  { apply setup_inv in Hsetup.
    destruct Hsetup as (dom & Vh & facets & dofs & x & A1 & H).
    decompose [and] H.
    match goal with E : t s0 = _ |- _ => rewrite E end. reflexivity. }
  assert (Hloop : time_loop lib fuel s0 = iterate lib 200 s0).
  { apply time_loop_unroll; [| exact Hfuel]. rewrite Ht0. reflexivity. }
  assert (Hexit : forall s', iterate lib 200 s0 = Done s' -> t s' == T).
  { intros s' H. destruct (iterate_clock lib _ _ _ Ht0 H) as [E _].
    rewrite E. reflexivity. }
  split; [reflexivity |]. split; [exact Hloop |].
  split; [rewrite Hloop; apply iterate_not_timeout |].
  split; [intros n s H; exact (iterate_clock lib _ _ _ Ht0 H) |].
  split; [rewrite Hloop; exact Hexit |].
  intros Hbody. rewrite Hloop.
  assert (G : forall n, (n <= 200)%nat -> exists s, iterate lib n s0 = Done s).
  { induction n as [| n IH]; intros Hn; [eexists; reflexivity |].
    destruct IH as [s Hs]; [lia |].
    destruct (Hbody n s) as [s' Hs']; [lia | exact Hs |].
    exists s'. rewrite iterate_S_r, Hs. exact Hs'. }
  destruct (G 200%nat) as [s' Hs']; [lia |]. eauto.
Qed.

Lemma time_loop_runs_num_steps_witness :
  time_loop (OneTriangle.lib None) 200 (OneTriangle.s0 None) = iterate (OneTriangle.lib None) 200 (OneTriangle.s0 None)
  /\ exists s', time_loop (OneTriangle.lib None) 200 (OneTriangle.s0 None) = Done s' /\ t s' == T.
Proof.
  destruct (time_loop_runs_num_steps (OneTriangle.lib None) (OneTriangle.s0 None) 200)
    as (_ & Hloop & _ & _ & Hexit & _); [apply one_triangle_setup | lia |].
  split; [exact Hloop |].
  destruct (returns_Done _ one_triangle_loop_returns) as [s' Hs']. eauto.
Defined.

(** In double precision the loop also makes 200 passes; the sum of 200
    rounded steps ends just above [T], at 3.0000000000000027. *)
Lemma binary64_clock :
  Binary64.clock 200 0%float 0 = Some (0x1.8000000000006p+1%float, 200%nat).
Proof. vm_compute. reflexivity. Qed.

(** ** Initial condition *)

(** C7.  Before the loop starts, [u_n] and [u_sol] are both interpolated from
    the same initial condition [u0(x) = x0*x1*(x0-2)*(x1-2)] into [V]: in the
    state in which the loop starts, at [t = 0], both arrays hold [u0] at the
    interpolation points of [V], so they are equal. *)
Theorem initial_condition_in_both_functions (lib : Library) (s0 : State lib) :
  setup lib = Done s0 ->
  exists x,
    interpolation_points lib (V (handles s0)) = Ok x
    /\ u_n s0 = map (fun p => p.[0] * p.[1] * (p.[0] - 2) * (p.[1] - 2))%R x
    /\ u_sol s0 = map (fun p => p.[0] * p.[1] * (p.[0] - 2) * (p.[1] - 2))%R x
    /\ u_n s0 = u_sol s0
    /\ t s0 = 0%Q
    /\ forall fuel,
         main lib fuel
         = (s <- time_loop lib fuel s0 ;;
            s <- plotter_close lib s ;;
            print lib "Simulation complete." s).
Proof.
  intros Hsetup. pose proof (setup_inv lib s0 Hsetup) as H.
  destruct H as (dom & Vh & facets & dofs & x & A1 & H).
  decompose [and] H; clear H. subst.
  exists x. repeat split; try assumption; try congruence.
  intros fuel. unfold main. rewrite Hsetup. reflexivity.
Qed.

Lemma initial_condition_in_both_functions_witness :
  u_n (OneTriangle.s0 None) = u_sol (OneTriangle.s0 None).
Proof.
  destruct (initial_condition_in_both_functions (OneTriangle.lib None) (OneTriangle.s0 None))
    as (x & _ & _ & _ & E & _); [reflexivity | exact E].
Defined.

(** ** The update of the previous solution *)

(** C3.  In every pass of the loop, the statement
    [u_n.x.array[:] = u_sol.x.array[:]] comes after the linear solve and makes
    the array of [u_n] equal, entry for entry, to the array of [u_sol], which
    holds the solution computed in this pass.  It occurs once in the body and
    no other statement of the body changes [u_n]. *)
Theorem previous_solution_single_assignment
    (lib : Library) (s0 s s' : State lib) (n : nat) :
  setup lib = Done s0 -> iterate lib n s0 = Done s -> step lib s = Done s' ->
  u_n s' = u_sol s'
  /\ (exists rhs y, ksp_solve lib (solver s) rhs = Ok y
                    /\ scatter_forward lib y = Ok (u_sol s'))
  /\ loop_body
     = [AdvanceTime; SetSourceTime; InterpolateSource; ResetRhs; AssembleRhs;
        ApplyLifting; GhostUpdate; SetBc; Solve; ScatterForward]
       ++ UpdatePrevious :: [WarpPoints; CopyPointData; WriteFrame]
  /\ count_occ Stmt_eq_dec loop_body UpdatePrevious = 1%nat
  /\ (forall c r r', c <> UpdatePrevious -> exec lib c r = Done r' -> u_n r' = u_n r)
  /\ (forall r r', length (u_n r) = length (u_sol r) ->
        exec lib UpdatePrevious r = Done r' ->
        u_n r' = u_sol r /\ u_sol r' = u_sol r).
Proof.
  intros Hsetup Hiter Hstep.
  pose proof (iterate_same_shape lib n s0 s Hsetup Hiter) as Hshape.
  pose proof (step_inv lib s s' Hstep) as H.
  destruct H as (x & k & b1 & b2 & b3 & y & y' & un & nw & p & d & name & frame & H).
  cbv zeta in H. decompose [and] H; clear H.
  match goal with
  | H : np_assign (u_n s) y' = Done un |- _ =>
      rewrite np_assign_same_shape in H by congruence; inversion H; subst un
  end.
  subst s'. simpl.
  split; [reflexivity |]. split; [eauto |]. split; [reflexivity |].
  split; [reflexivity |]. split.
  - intros c r r' Hc Hexec. apply (exec_frame lib c o_u_n r r'); [| exact Hexec].
    destruct c; try reflexivity. contradiction.
  - intros r r' Hr Hexec. simpl in Hexec.
    rewrite np_assign_same_shape in Hexec by congruence.
    simpl in Hexec. inversion Hexec; subst. simpl. auto.
Qed.

Lemma previous_solution_single_assignment_witness :
  exists s', step (OneTriangle.lib None) (OneTriangle.s0 None) = Done s' /\ u_n s' = u_sol s'.
Proof.
  destruct (returns_Done _ one_triangle_step_returns) as [s' Hs'].
  exists s'. split; [exact Hs' |].
  destruct (previous_solution_single_assignment
              (OneTriangle.lib None) (OneTriangle.s0 None) (OneTriangle.s0 None) s' 0
              (one_triangle_setup None) eq_refl Hs') as [E _].
  exact E.
Defined.

(** ** The system matrix *)

(** C6.  The matrix [A] is assembled from [a] once, by the cells before the
    loop, and the solver is configured with it there.  No statement of the
    loop body changes [A], the solver, or the mesh, function space and
    boundary condition: of the objects of the linear system the body writes
    only [b], [f], [u_sol] and [u_n].  Its writes outside the linear system
    are the clock [t], the time stored in [f_expr], the plotted grid, whose
    point data is the array of [u_sol], and the GIF.  So in every pass [A] and
    the solver are those of the start. *)
Theorem system_matrix_assembled_once (lib : Library) (s0 : State lib) :
  setup lib = Done s0 ->
  (exists A1, assemble_matrix lib (a (V (handles s0))) = Ok A1
              /\ mat_assemble lib A1 = Ok (A s0))
  /\ operators (solver s0) = Some (A s0)
  /\ (forall c r r', exec lib c r = Done r' ->
        A r' = A r /\ solver r' = solver r /\ handles r' = handles r)
  /\ (forall c o, writes c o = true ->
        In o [o_b; o_f; o_u_sol; o_u_n] \/ In o [o_t; o_f_expr; o_warped; o_files])
  /\ (forall c o r r', writes c o = false -> exec lib c r = Done r' -> same_at o r r')
  /\ (forall n s, iterate lib n s0 = Done s ->
        A s = A s0 /\ solver s = solver s0 /\ handles s = handles s0).
Proof.
  intros Hsetup. pose proof (setup_inv lib s0 Hsetup) as H.
  destruct H as (dom & Vh & facets & dofs & x & A1 & H).
  decompose [and] H; clear H.
  split; [exists A1; split; congruence |].
  split; [match goal with E : solver s0 = _ |- _ => rewrite E end; reflexivity |].
  split.
  { intros c r r' Hexec.
    pose proof (exec_frame lib c o_A r r') as HA.
    pose proof (exec_frame lib c o_solver r r') as HS.
    pose proof (exec_frame lib c o_handles r r') as HH.
    destruct c; simpl in HA, HS, HH; auto. }
  split.
  { intros c o W. destruct c, o; simpl in W; try discriminate W; simpl; tauto. }
  split; [intros c o r r'; apply exec_frame |].
  intros n s Hiter. apply iterate_unchanged in Hiter as (G1 & G2 & G3 & _). auto.
Qed.

Lemma system_matrix_assembled_once_witness :
  operators (solver (OneTriangle.s0 None)) = Some (A (OneTriangle.s0 None)).
Proof.
  destruct (system_matrix_assembled_once (OneTriangle.lib None) (OneTriangle.s0 None))
    as (_ & E & _); [reflexivity | exact E].
Defined.

(** ** The source term *)

Lemma eval_source (time : Q) (x : point) :
  TimeDependentSource.eval {| TimeDependentSource.t := time |} x = source time x.
Proof.
  unfold TimeDependentSource.eval, source. simpl. rewrite Q2R_opp. ring.
Qed.

Lemma iterate_t_sum (lib : Library) (n : nat) (s0 s : State lib) :
  iterate lib n s0 = Done s -> t s = Nat.iter n (fun q => (q + dt)%Q) (t s0).
Proof.
  revert s. induction n as [| n IH]; intros s H.
  - simpl in H. inversion H; subst. reflexivity.
  - rewrite iterate_S_r in H. apply bind_Done_inv in H as (s1 & E1 & H).
    apply step_t in H. rewrite H, (IH s1 E1). reflexivity.
Qed.

(** C4.  Every pass of the loop first advances [t] by [dt], stores it in
    [f_expr] and interpolates [f_expr.eval] into [f]; only then is the
    right-hand side assembled, and the vector that goes through the lifting
    and the boundary condition into the solve is assembled from [L] with the
    array of [u_n] for the coefficient [u_n] and this new array of [f] for the
    coefficient [f].  In pass [n] (counted from 0) the clock is advanced from
    the sum of [n] steps [dt] to the sum of [n + 1] steps, the time
    [t_{n+1}], and [f] holds
    [-exp(-t) * (x0*x1*(x0-2)*(x1-2) + 2*x0*(x0-2) + 2*x1*(x1-2))] at that
    time at the interpolation points.  No later statement of the pass changes
    [t], [f_expr] or [f]. *)
Theorem source_recomputed_at_advanced_time
    (lib : Library) (s0 s s' : State lib) (n : nat) :
  setup lib = Done s0 -> iterate lib n s0 = Done s -> step lib s = Done s' ->
  t s = Nat.iter n (fun q => (q + dt)%Q) 0%Q
  /\ t s' = (t s + dt)%Q
  /\ t s' = Nat.iter (S n) (fun q => (q + dt)%Q) 0%Q
  /\ TimeDependentSource.t (f_expr s') = t s'
  /\ (exists x coef k b1 b2 b3 y,
        interpolation_points lib (V (handles s)) = Ok x
        /\ f s' = map (source (t s')) x
        /\ coef coef_u_n = u_n s
        /\ coef coef_f = f s'
        /\ assemble_linear_form lib (L (V (handles s))) coef = Ok k
        /\ apply_lifting lib k [a (V (handles s))] [[bc (handles s)]] = Ok b1
        /\ ghostUpdate lib b1 ADD_VALUES REVERSE = Ok b2
        /\ set_bc lib b2 [bc (handles s)] = Ok b3
        /\ ksp_solve lib (solver s) b3 = Ok y)
  /\ loop_body
     = [AdvanceTime; SetSourceTime; InterpolateSource]
       ++ [ResetRhs; AssembleRhs; ApplyLifting; GhostUpdate; SetBc; Solve;
           ScatterForward; UpdatePrevious; WarpPoints; CopyPointData; WriteFrame]
  /\ (forall c r r',
        In c [ResetRhs; AssembleRhs; ApplyLifting; GhostUpdate; SetBc; Solve;
              ScatterForward; UpdatePrevious; WarpPoints; CopyPointData; WriteFrame] ->
        exec lib c r = Done r' ->
        t r' = t r /\ f_expr r' = f_expr r /\ f r' = f r).
Proof.
  intros Hsetup Hiter Hstep.
  assert (Ht0 : t s0 = 0%Q).
  { apply setup_inv in Hsetup.
    destruct Hsetup as (dom & Vh & facets & dofs & x & A1 & H).
    decompose [and] H. assumption. }
  pose proof (iterate_t_sum lib n s0 s Hiter) as Hclock. rewrite Ht0 in Hclock.
  pose proof (step_inv lib s s' Hstep) as H.
  destruct H as (x & k & b1 & b2 & b3 & y & y' & un & nw & p & d & name & frame & H).
  cbv zeta in H. decompose [and] H; clear H. subst s'. cbn [t f f_expr u_n].
  split; [exact Hclock |]. split; [reflexivity |].
  split; [rewrite Hclock; reflexivity |]. split; [reflexivity |]. split.
  { exists x,
      (fun c => match c with
                | coef_u_n => u_n s
                | coef_f =>
                    map (TimeDependentSource.eval
                           {| TimeDependentSource.t := (t s + dt)%Q |}) x
                end),
      k, b1, b2, b3, y.
    split; [assumption |]. split.
    - apply map_ext. intros q. apply eval_source.
    - repeat split; assumption. }
  split; [reflexivity |].
  intros c r r' Hin Hexec.
  pose proof (exec_frame lib c o_t r r') as F1.
  pose proof (exec_frame lib c o_f_expr r r') as F2.
  pose proof (exec_frame lib c o_f r r') as F3.
  simpl in Hin.
  repeat (destruct Hin as [<- | Hin]; [simpl in F1, F2, F3; auto |]).
  contradiction.
Qed.

Lemma source_recomputed_at_advanced_time_witness :
  exists s', step (OneTriangle.lib None) (OneTriangle.s0 None) = Done s'
             /\ f s' = map (source (t s')) OneTriangle.midpoints.
Proof.
  destruct (returns_Done _ one_triangle_step_returns) as [s' Hs'].
  exists s'. split; [exact Hs' |].
  destruct (source_recomputed_at_advanced_time
              (OneTriangle.lib None) (OneTriangle.s0 None) (OneTriangle.s0 None) s' 0
              (one_triangle_setup None) eq_refl Hs')
    as (_ & _ & _ & _ & (x & coef & k & b1 & b2 & b3 & y & E1 & E2 & _) & _).
  simpl in E1. inversion E1; subst x. exact E2.
Defined.

(** ** The right-hand side *)

Lemma vec_set_all (alpha : R) (v : ndarray) :
  Forall (fun x => x = alpha) (vec_set alpha v).
Proof. unfold vec_set. induction v; simpl; constructor; auto. Qed.

(** A pass does not read what [b] holds when it begins, only its size. *)
Lemma step_ignores_rhs (lib : Library) (s : State lib) (b0 : ndarray) :
  length b0 = length (b s) -> step lib (set_b b0 s) = step lib s.
Proof.
  intros Hb0. unfold step, loop_body. simpl.
  match goal with
  | |- context [interpolate ?l ?v ?u ?g] => destruct (interpolate l v u g) as [f' | e |]
  end; simpl; [| reflexivity | reflexivity].
  pose proof (vec_set_same_length 0 b0 (b s) Hb0) as E.
  unfold vec_set in *. rewrite E. reflexivity.
Qed.

(** C10.  In every pass, [b] is set to zero before [L] is assembled into it:
    after [assemble_vector] the entries of [b] are exactly the assembled
    values of [L] for the current [u_n] and [f].  What [b] held when the pass
    began has no effect on the pass: with any other contents of the same size
    the pass does the same. *)
Theorem rhs_zeroed_before_assembly (lib : Library) (s s' : State lib) :
  step lib s = Done s' ->
  (exists s1 s2 k,
      run_stmts lib [AdvanceTime; SetSourceTime; InterpolateSource; ResetRhs] s = Done s1
      /\ b s1 = vec_set 0 (b s)
      /\ Forall (fun v => v = 0%R) (b s1)
      /\ u_n s1 = u_n s /\ f s1 = f s'
      /\ assemble_linear_form lib (L (V (handles s1))) (coef_env (u_n s1) (f s1)) = Ok k
      /\ exec lib AssembleRhs s1 = Done s2
      /\ b s2 = k)
  /\ loop_body
     = [AdvanceTime; SetSourceTime; InterpolateSource; ResetRhs; AssembleRhs]
       ++ [ApplyLifting; GhostUpdate; SetBc; Solve; ScatterForward; UpdatePrevious;
           WarpPoints; CopyPointData; WriteFrame]
  /\ (forall b0, length b0 = length (b s) -> step lib (set_b b0 s) = Done s').
Proof.
  intros Hstep.
  pose proof (step_inv lib s s' Hstep) as H.
  destruct H as (x & k & b1 & b2 & b3 & y & y' & un & nw & p & d & name & frame & H).
  cbv zeta in H. decompose [and] H; clear H.
  split; [| split; [reflexivity |]].
  - eexists _, _, k. simpl. unfold interpolate.
    match goal with E : interpolation_points _ _ = _ |- _ => rewrite E end.
    simpl. rewrite vec_write_conforming by assumption. simpl.
    split; [reflexivity |]. simpl.
    split; [reflexivity |].
    split; [apply vec_set_all |].
    split; [reflexivity |]. split; [subst s'; reflexivity |].
    split; [assumption |].
    unfold coefficients. simpl.
    match goal with E : assemble_linear_form _ _ _ = _ |- _ => rewrite E end.
    simpl. unfold vec_axpy. rewrite vec_set_length.
    match goal with E : length k = _ |- _ => rewrite E end.
    rewrite Nat.eqb_refl. simpl.
    split; [reflexivity |]. simpl. apply zero_plus_vector. assumption.
  - intros b0 Hb0. rewrite <- Hstep. apply step_ignores_rhs. exact Hb0.
Qed.

Lemma rhs_zeroed_before_assembly_witness :
  exists s', step (OneTriangle.lib None) (OneTriangle.s0 None) = Done s'
             /\ step (OneTriangle.lib None) (set_b [1; 2; 3]%R (OneTriangle.s0 None)) = Done s'.
Proof.
  destruct (returns_Done _ one_triangle_step_returns) as [s' Hs'].
  exists s'. split; [exact Hs' |].
  destruct (rhs_zeroed_before_assembly (OneTriangle.lib None) (OneTriangle.s0 None) s' Hs')
    as (_ & _ & E).
  apply E. reflexivity.
Defined.

(** ** Files *)

Lemma step_appends_frame (lib : Library) (n : nat) (s s' : State lib) :
  gif_holds n s -> step lib s = Done s' ->
  gif_holds (S n) s'
  /\ exists frames frame,
       files s = {["u_sol.gif" := frames]}
       /\ files s' = {["u_sol.gif" := frames ++ [frame]]}.
Proof.
  intros (Hp & frames & Hf & Hlen) Hstep.
  pose proof (step_inv lib s s' Hstep) as H.
  destruct H as (x & k & b1 & b2 & b3 & y & y' & un & nw & p & d & name & frame & H).
  cbv zeta in H. decompose [and] H; clear H.
  assert (name = "u_sol.gif") as ->.
  { match goal with E : mwriter _ = Some name |- _ => rewrite Hp in E; simpl in E end.
    congruence. }
  assert (Hfiles : files s' = {["u_sol.gif" := frames ++ [frame]]}).
  { subst s'. simpl. rewrite Hf, lookup_singleton_eq. simpl.
    apply insert_singleton_eq. }
  split.
  - split; [subst s'; exact Hp |].
    exists (frames ++ [frame]). split; [exact Hfiles |].
    rewrite length_app. simpl. lia.
  - eauto.
Qed.

Lemma iterate_gif (lib : Library) (n : nat) (s0 s : State lib) :
  gif_holds 0 s0 -> iterate lib n s0 = Done s -> gif_holds n s.
Proof.
  intros H0. revert s. induction n as [| n IH]; intros s H.
  - simpl in H. inversion H; subst. exact H0.
  - rewrite iterate_S_r in H. apply bind_Done_inv in H as (s1 & E1 & H).
    eapply step_appends_frame; eauto.
Qed.

Lemma setup_gif (lib : Library) (s0 : State lib) :
  setup lib = Done s0 -> gif_holds 0 s0.
Proof.
  intros H. apply setup_inv in H.
  destruct H as (dom & Vh & facets & dofs & x & A1 & H).
  decompose [and] H; clear H.
  split; [assumption |]. exists []. split; [assumption | reflexivity].
Qed.

(** C8.  A completed run has written one file, the animation [u_sol.gif],
    and that file holds one frame per pass of the loop, 200 in all: every pass
    appends exactly one frame to it.  The calls that would write an XDMF
    solution file are comments in the source and are not part of the program,
    so no other file exists at the end; the only other output is the line
    printed at the end. *)
Theorem gif_is_the_only_file (lib : Library) (fuel : nat) (s_end : State lib) :
  (200 <= fuel)%nat -> main lib fuel = Done s_end ->
  dom (files s_end) = {["u_sol.gif"]}
  /\ (exists frames, files s_end = {["u_sol.gif" := frames]} /\ length frames = 200%nat)
  /\ stdout s_end = ["Simulation complete."]
  /\ (forall s0 n s s',
        setup lib = Done s0 -> iterate lib n s0 = Done s -> step lib s = Done s' ->
        exists frames frame,
          length frames = n
          /\ files s = {["u_sol.gif" := frames]}
          /\ files s' = {["u_sol.gif" := frames ++ [frame]]}).
Proof.
  intros Hfuel Hmain. unfold main in Hmain.
  apply bind_Done_inv in Hmain as (s0 & Hsetup & Hmain).
  apply bind_Done_inv in Hmain as (s1 & Hloop & Hmain).
  apply bind_Done_inv in Hmain as (s2 & Hclose & Hprint).
  rewrite (time_loop_unroll lib 200 fuel s0) in Hloop; [| | exact Hfuel].
  2: { pose proof (setup_inv lib s0 Hsetup) as H.
       destruct H as (dom & Vh & facets & dofs & x & A1 & H).
       decompose [and] H.
       match goal with E : t s0 = _ |- _ => rewrite E end. reflexivity. }
  pose proof (setup_gif lib s0 Hsetup) as G0.
  pose proof (iterate_gif lib 200 s0 s1 G0 Hloop) as (Hp & frames & Hf & Hlen).
  pose proof (setup_inv lib s0 Hsetup) as H.
  destruct H as (dom & Vh & facets & dofs & x & A1 & H).
  decompose [and] H; clear H.
  pose proof (iterate_unchanged lib 200 s0 s1 Hloop) as (_ & _ & _ & _ & Hout).
  assert (Hs2 : files s2 = files s1 /\ stdout s2 = stdout s1).
  { unfold plotter_close in Hclose. destruct (mwriter (plotter s1)).
    - outcome_inv. split; reflexivity.
    - inversion Hclose; subst. split; reflexivity. }
  destruct Hs2 as [Hf2 Ho2].
  unfold print in Hprint. inversion Hprint; subst s_end. simpl.
  rewrite Hf2, Ho2, Hf, Hout.
  split; [apply dom_singleton_L |].
  split; [eauto |].
  split; [match goal with E : stdout s0 = _ |- _ => rewrite E end; reflexivity |].
  intros r0 n r r' Hr0 Hiter Hstep.
  pose proof (iterate_gif lib n r0 r (setup_gif lib r0 Hr0) Hiter) as Gn.
  destruct (step_appends_frame lib n r r' Gn Hstep) as (_ & fr & frame & E1 & E2).
  destruct Gn as (_ & fr' & E3 & E4).
  assert (fr = fr').
  { rewrite E1 in E3. apply (f_equal (fun m => m !! "u_sol.gif")) in E3.
    rewrite !lookup_singleton_eq in E3. congruence. }
  subst fr'. eauto.
Qed.

Lemma one_triangle_main_returns : returns (main (OneTriangle.lib None) 200) = true.
Proof. vm_compute. reflexivity. Qed.

Lemma gif_is_the_only_file_witness :
  exists s_end, main (OneTriangle.lib None) 200 = Done s_end
                /\ dom (files s_end) = {["u_sol.gif"]}.
Proof.
  destruct (returns_Done _ one_triangle_main_returns) as [s_end Hs].
  exists s_end. split; [exact Hs |].
  destruct (gif_is_the_only_file (OneTriangle.lib None) 200 s_end) as (E & _);
    [lia | exact Hs | exact E].
Defined.

(** ** Exceptions *)

Lemma iterate_add (lib : Library) (n m : nat) (s : State lib) :
  iterate lib (n + m) s = (s1 <- iterate lib n s ;; iterate lib m s1).
Proof.
  revert s. induction n as [| n IH]; intros s; [reflexivity |].
  simpl. destruct (step lib s) as [s1 | e |]; simpl; auto.
Qed.

(** C9.  The notebook has no handler: statements are only ever sequenced,
    and sequencing passes an exception on as it is.  So an exception raised by
    a library call leaves the program unchanged: one raised by the mesh
    construction, by the assembly of the matrix or by any other call before
    the loop; one raised by the assembly of the right-hand side or by the
    linear solve, or by any statement of the loop body, in any pass; one
    raised when the plotter is closed. *)
Theorem library_errors_propagate (lib : Library) (fuel : nat) (e : exn) :
  (forall k : State lib -> outcome (State lib), bind (Raise e) k = Raise e)
  /\ (create_rectangle lib COMM_WORLD [[0; 0]; [2; 2]]%Z [nx; ny] triangle = Error e ->
      main lib fuel = Raise e)
  /\ (forall dom Vh facets dofs bc0 z x,
        create_rectangle lib COMM_WORLD [[0; 0]; [2; 2]]%Z [nx; ny] triangle = Ok dom ->
        functionspace lib dom ("CR", 1%Z) = Ok Vh ->
        locate_entities_boundary lib dom (topology_dim lib dom - 2)%Z (fun _ => true)
        = Ok facets ->
        locate_dofs_topological lib Vh (topology_dim lib dom - 2)%Z facets = Ok dofs ->
        dirichletbc lib 0%R dofs Vh = Ok bc0 ->
        Function lib Vh = Ok z ->
        interpolation_points lib Vh = Ok x ->
        length x = length z ->
        assemble_matrix lib (a Vh) = Error e ->
        main lib fuel = Raise e)
  /\ (setup lib = Raise e -> main lib fuel = Raise e)
  /\ (forall s, assemble_linear_form lib (L (V (handles s))) (coefficients lib s) = Error e ->
        exec lib AssembleRhs s = Raise e)
  /\ (forall s, ksp_solve lib (solver s) (b s) = Error e -> exec lib Solve s = Raise e)
  /\ (forall pre c post s s1,
        loop_body = pre ++ c :: post ->
        run_stmts lib pre s = Done s1 -> exec lib c s1 = Raise e ->
        step lib s = Raise e)
  /\ (forall s0 n s,
        setup lib = Done s0 -> (n < 200)%nat -> (200 <= fuel)%nat ->
        iterate lib n s0 = Done s -> step lib s = Raise e ->
        main lib fuel = Raise e)
  /\ (forall s0 s1,
        setup lib = Done s0 -> time_loop lib fuel s0 = Done s1 ->
        plotter_close lib s1 = Raise e ->
        main lib fuel = Raise e).
Proof.
  split; [reflexivity |].
  split; [intros H; unfold main, setup; rewrite H; reflexivity |].
  split.
  { intros dom Vh facets dofs bc0 z x H1 H2 H3 H4 H5 H6 H7 H8 H9.
    unfold main, setup. rewrite H1. cbn [call bind]. rewrite H2. cbn [call bind].
    cbv zeta. rewrite H3. cbn [call bind]. rewrite H4. cbn [call bind].
    rewrite H5. cbn [call bind]. rewrite H6. cbn [call bind].
    unfold interpolate. rewrite H7. cbn [call bind].
    rewrite !vec_write_conforming by (rewrite length_map; exact H8).
    cbn [call bind]. rewrite H9. reflexivity. }
  split; [intros H; unfold main; rewrite H; reflexivity |].
  split; [intros s H; simpl; rewrite H; reflexivity |].
  split; [intros s H; simpl; rewrite H; reflexivity |].
  split.
  { intros pre c post s s1 Hbody Hpre Hc. unfold step. rewrite Hbody.
    rewrite run_stmts_app, Hpre. simpl. rewrite Hc. reflexivity. }
  split.
  { intros s0 n s Hsetup Hn Hfuel Hiter Hstep. unfold main. rewrite Hsetup.
    cbn [bind]. rewrite (time_loop_unroll lib 200 fuel s0); [| | exact Hfuel].
    - replace 200%nat with (n + S (199 - n))%nat by lia.
      rewrite iterate_add, Hiter. cbn [bind iterate]. rewrite Hstep. reflexivity.
    - pose proof (setup_inv lib s0 Hsetup) as H.
      destruct H as (dom & Vh & facets & dofs & x & A1 & H).
      decompose [and] H.
      match goal with E : t s0 = _ |- _ => rewrite E end. reflexivity. }
  intros s0 s1 Hsetup Hloop Hclose. unfold main.
  rewrite Hsetup. cbn [bind]. rewrite Hloop. cbn [bind]. rewrite Hclose. reflexivity.
Qed.

Lemma library_errors_propagate_witness :
  main (OneTriangle.lib (Some "singular matrix")) 200 = Raise "singular matrix".
Proof.
  destruct (library_errors_propagate (OneTriangle.lib (Some "singular matrix")) 200
              "singular matrix") as (_ & _ & _ & _ & _ & _ & _ & H & _).
  apply (H (OneTriangle.s0 _) 0%nat (OneTriangle.s0 _)); [reflexivity | lia | lia | reflexivity |].
  vm_compute. reflexivity.
Defined.

(** ** The discrete system *)

(** C1.  The matrix is assembled from the bilinear form
    [integral(u*v) + dt * integral(grad u . grad v)] over the degree-1
    Crouzeix-Raviart space [V] on the rectangle with corners (0,0) and (2,2)
    divided into triangles, and every pass of the loop assembles the
    right-hand side from the linear form [integral((u_n + dt*f)*v)], with the
    array of [u_n] for its coefficient [u_n] and the newly interpolated array
    of [f] for its coefficient [f], and solves with that matrix: the
    backward-Euler system of the step. *)
Theorem backward_euler_system
    (lib : Library) (K : FieldAlgebra) (s0 s s' : State lib) (n : nat) :
  integral_homogeneous K ->
  setup lib = Done s0 -> iterate lib n s0 = Done s -> step lib s = Done s' ->
  (forall u v coef,
      denote_form K u v coef (a (V (handles s0)))
      = (integral K (fmul K u v)
         + Q2R dt * integral K (vdot K (grad K u) (grad K v)))%R)
  /\ (forall u v coef,
        denote_form K u v coef (L (V (handles s0)))
        = integral K (fmul K (fadd K (coef coef_u_n)
                                      (fmul K (fconst K (Q2R dt)) (coef coef_f))) v))
  /\ (exists dom,
        create_rectangle lib COMM_WORLD [[0; 0]; [2; 2]]%Z [nx; ny] triangle = Ok dom
        /\ functionspace lib dom ("CR", 1%Z) = Ok (V (handles s0)))
  /\ (exists A1,
        assemble_matrix lib (a (V (handles s0))) = Ok A1
        /\ mat_assemble lib A1 = Ok (A s0))
  /\ (exists coef k b1 b2 b3 y,
        coef coef_u_n = u_n s
        /\ coef coef_f = f s'
        /\ assemble_linear_form lib (L (V (handles s0))) coef = Ok k
        /\ apply_lifting lib k [a (V (handles s0))] [[bc (handles s0)]] = Ok b1
        /\ ghostUpdate lib b1 ADD_VALUES REVERSE = Ok b2
        /\ set_bc lib b2 [bc (handles s0)] = Ok b3
        /\ operators (solver s) = Some (A s0)
        /\ ksp_type (solver s) = Some PREONLY
        /\ pc_type (solver s) = Some LU
        /\ ksp_solve lib (solver s) b3 = Ok y
        /\ scatter_forward lib y = Ok (u_sol s')).
Proof.
  intros Hlin Hsetup Hiter Hstep.
  split; [intros u v coef; simpl; rewrite Hlin; reflexivity |].
  split; [intros u v coef; reflexivity |].
  pose proof (setup_inv lib s0 Hsetup) as H.
  destruct H as (dom & Vh & facets & dofs & x & A1 & H).
  decompose [and] H; clear H.
  split; [exists dom; split; congruence |].
  split; [exists A1; split; congruence |].
  pose proof (iterate_unchanged lib n s0 s Hiter) as (Hh & HA & Hs & _).
  pose proof (step_inv lib s s' Hstep) as H.
  destruct H as (x' & k & b1 & b2 & b3 & y & y' & un & nw & p & d & name & frame & H).
  cbv zeta in H. decompose [and] H; clear H.
  rewrite Hh in *. subst s'. cbn [f u_sol].
  exists (fun c => match c with
                   | coef_u_n => u_n s
                   | coef_f =>
                       map (TimeDependentSource.eval
                              {| TimeDependentSource.t := (t s + dt)%Q |}) x'
                   end),
         k, b1, b2, b3, y.
  repeat split; try assumption;
    rewrite Hs; match goal with E : solver s0 = _ |- _ => rewrite E end; reflexivity.
Qed.

Lemma backward_euler_system_witness :
  exists s', step (OneTriangle.lib None) (OneTriangle.s0 None) = Done s'
    /\ forall u v coef,
         denote_form OneTriangle.constants u v coef (a tt)
         = (u * v + Q2R dt * (0 * 0))%R.
Proof.
  destruct (returns_Done _ one_triangle_step_returns) as [s' Hs'].
  exists s'. split; [exact Hs' |].
  assert (Hlin : integral_homogeneous OneTriangle.constants) by (intros c g; reflexivity).
  destruct (backward_euler_system (OneTriangle.lib None) OneTriangle.constants
              (OneTriangle.s0 None) (OneTriangle.s0 None) s' 0 Hlin (one_triangle_setup None) eq_refl Hs')
    as (E & _).
  exact E.
Defined.

(** ** The boundary condition *)

(** C2 (what the code does).  The entities on which the Dirichlet condition
    is located have dimension [domain.topology.dim - 2]: two less than the
    dimension of the mesh, not one less.  On the mesh of triangles of the
    notebook that is dimension 0, the vertices, and the degrees of freedom
    handed to [dirichletbc] are those that [locate_dofs_topological] returns
    for the boundary vertices. *)
Theorem boundary_entities_are_two_dimensions_down (lib : Library) (s0 : State lib) :
  setup lib = Done s0 ->
  fdim (handles s0) = (topology_dim lib (domain (handles s0)) - 2)%Z
  /\ fdim (handles s0) <> (topology_dim lib (domain (handles s0)) - 1)%Z
  /\ (topology_cell_type lib (domain (handles s0)) = triangle ->
      fdim (handles s0) = 0%Z)
  /\ locate_entities_boundary lib (domain (handles s0)) (fdim (handles s0))
       (fun _ => true) = Ok (boundary_facets (handles s0))
  /\ exists dofs,
       locate_dofs_topological lib (V (handles s0)) (fdim (handles s0))
         (boundary_facets (handles s0)) = Ok dofs
       /\ dirichletbc lib 0%R dofs (V (handles s0)) = Ok (bc (handles s0)).
Proof.
  intros Hsetup. pose proof (setup_inv lib s0 Hsetup) as H.
  destruct H as (dom & Vh & facets & dofs & x & A1 & H).
  decompose [and] H; clear H.
  repeat match goal with
  | E : domain _ = _ |- _ => rewrite E in *; clear E
  | E : V _ = _ |- _ => rewrite E in *; clear E
  | E : fdim _ = _ |- _ => rewrite E in *; clear E
  | E : boundary_facets _ = _ |- _ => rewrite E in *; clear E
  end.
  split; [reflexivity |]. split; [lia |].
  split; [intros E; unfold topology_dim; rewrite E; reflexivity |].
  split; [assumption |]. exists dofs. split; assumption.
Qed.

Lemma boundary_entities_are_two_dimensions_down_witness :
  fdim (handles (OneTriangle.s0 None)) = 0%Z
  /\ (topology_dim (OneTriangle.lib None) (domain (handles (OneTriangle.s0 None))) - 1 = 1)%Z.
Proof.
  split; [| reflexivity].
  destruct (boundary_entities_are_two_dimensions_down (OneTriangle.lib None) (OneTriangle.s0 None))
    as (_ & _ & E & _); [reflexivity |].
  apply E. reflexivity.
Defined.

(** * Further properties of the notebook *)

(** ** Initial condition and source term *)

(** X1.  On the closed square [0,2] x [0,2] the initial condition is never
    negative; it vanishes on the four sides of the square, as the Dirichlet
    condition [u = 0] requires, and its value at the centre (1,1) is 1. *)
Theorem initial_condition_on_domain (x : point) :
  (0 <= x.[0] <= 2)%R -> (0 <= x.[1] <= 2)%R ->
  (0 <= initial_condition x)%R
  /\ ((x.[0] = 0 \/ x.[0] = 2 \/ x.[1] = 0 \/ x.[1] = 2)%R -> initial_condition x = 0%R)
  /\ (x.[0] = 1%R /\ x.[1] = 1%R -> initial_condition x = 1%R).
Proof.
  unfold initial_condition. generalize (x.[0]) (x.[1]). intros p q Hp Hq.
  assert (Ep : (p * q * (p - 2) * (q - 2) = (p * (2 - p)) * (q * (2 - q)))%R) by ring.
  rewrite Ep.
  assert (Hp1 : (0 <= p * (2 - p))%R) by (apply Rmult_le_pos; lra).
  assert (Hq1 : (0 <= q * (2 - q))%R) by (apply Rmult_le_pos; lra).
  split; [apply Rmult_le_pos; assumption |]. split.
  - intros [E | [E | [E | E]]]; rewrite E; ring.
  - intros [-> ->]. ring.
Qed.

Lemma initial_condition_on_domain_witness :
  (0 <= initial_condition [1; 1; 0])%R.
Proof.
  destruct (initial_condition_on_domain [1; 1; 0]%R) as (H & _);
    [simpl; lra | simpl; lra | exact H].
Defined.

Lemma quadratic_derivative (C x : R) :
  derivable_pt_lim (fun z => C * (z * (z - 2)))%R x (C * (2 * x - 2))%R.
Proof.
  apply derivable_pt_lim_ext with (f := mult_real_fct C (id * (id - fct_cte 2))%F).
  - intros z. reflexivity.
  - replace (C * (2 * x - 2))%R
      with (C * (1 * (id - fct_cte 2)%F x + id x * (1 - 0)))%R
      by (unfold minus_fct, id, fct_cte; ring).
    apply derivable_pt_lim_scal, derivable_pt_lim_mult.
    + apply derivable_pt_lim_id.
    + apply derivable_pt_lim_minus;
        [apply derivable_pt_lim_id | apply derivable_pt_lim_const].
Qed.

Lemma linear_derivative (C x : R) :
  derivable_pt_lim (fun z => C * (2 * z - 2))%R x (2 * C)%R.
Proof.
  apply derivable_pt_lim_ext
    with (f := mult_real_fct C (mult_real_fct 2 id - fct_cte 2)%F).
  - intros z. reflexivity.
  - replace (2 * C)%R with (C * (2 * 1 - 0))%R by ring.
    apply derivable_pt_lim_scal, derivable_pt_lim_minus.
    + apply derivable_pt_lim_scal, derivable_pt_lim_id.
    + apply derivable_pt_lim_const.
Qed.

Lemma decay_derivative (C time : R) :
  derivable_pt_lim (fun z => exp (- z) * C)%R time (- exp (- time) * C)%R.
Proof.
  apply derivable_pt_lim_ext with (f := (comp exp (- id) * fct_cte C)%F).
  - intros z. reflexivity.
  - replace (- exp (- time) * C)%R
      with (exp ((- id)%F time) * - 1 * fct_cte C time
            + comp exp (- id)%F time * 0)%R
      by (unfold comp, opp_fct, id, fct_cte; ring).
    apply derivable_pt_lim_mult.
    + apply derivable_pt_lim_comp.
      * apply derivable_pt_lim_opp, derivable_pt_lim_id.
      * apply derivable_pt_lim_exp.
    + apply derivable_pt_lim_const.
Qed.

(** X2.  The source term of the notebook is the one for which
    [u(x, t) = exp(-t) * u0(x)] solves the heat equation [u_t = laplace u + f]:
    at every point and time, [f_expr.eval] equals the time derivative of [u]
    minus the sum of its second derivatives in [x0] and [x1].  This [u] starts
    from the initial condition. *)
Theorem source_is_manufactured (time : Q) (x0 x1 x2 : R) :
  exists (u_t u_xx u_yy : R) (u_x u_y : R -> R),
    derivable_pt_lim (fun z => exact_solution z [x0; x1; x2]) (Q2R time) u_t
    /\ (forall p, derivable_pt_lim
                    (fun z => exact_solution (Q2R time) [z; x1; x2]) p (u_x p))
    /\ derivable_pt_lim u_x x0 u_xx
    /\ (forall q, derivable_pt_lim
                    (fun z => exact_solution (Q2R time) [x0; z; x2]) q (u_y q))
    /\ derivable_pt_lim u_y x1 u_yy
    /\ TimeDependentSource.eval {| TimeDependentSource.t := time |} [x0; x1; x2]
       = (u_t - (u_xx + u_yy))%R
    /\ exact_solution 0 [x0; x1; x2] = initial_condition [x0; x1; x2].
Proof.
  set (e := exp (- Q2R time)).
  exists (- e * initial_condition [x0; x1; x2])%R,
         (2 * (e * (x1 * (x1 - 2))))%R,
         (2 * (e * (x0 * (x0 - 2))))%R,
         (fun p => e * (x1 * (x1 - 2)) * (2 * p - 2))%R,
         (fun q => e * (x0 * (x0 - 2)) * (2 * q - 2))%R.
  split.
  { unfold exact_solution. apply decay_derivative. }
  split.
  { intros p. unfold exact_solution, initial_condition. simpl. fold e.
    apply derivable_pt_lim_ext with (f := (fun z => e * (x1 * (x1 - 2)) * (z * (z - 2)))%R).
    - intros z. ring.
    - apply quadratic_derivative. }
  split; [apply linear_derivative |].
  split.
  { intros q. unfold exact_solution, initial_condition. simpl. fold e.
    apply derivable_pt_lim_ext with (f := (fun z => e * (x0 * (x0 - 2)) * (z * (z - 2)))%R).
    - intros z. ring.
    - apply quadratic_derivative. }
  split; [apply linear_derivative |].
  split.
  { unfold TimeDependentSource.eval, initial_condition. simpl.
    rewrite Q2R_opp. fold e. ring. }
  unfold exact_solution. rewrite Ropp_0, exp_0. ring.
Qed.

(** ** The variational forms *)

Lemma denote_coefficient_free {FS : Type} (K : FieldAlgebra) (u v : Fld K)
    (c1 c2 : coefficient -> Fld K) {sh : shape} (e : expr FS sh) :
  expr_coefficient_free e = true -> denote K u v c1 e = denote K u v c2 e.
Proof.
  induction e; simpl; intros H; try reflexivity; try discriminate;
    try (apply andb_prop in H as [H1 H2]; rewrite IHe1, IHe2 by assumption;
         reflexivity).
  rewrite IHe by assumption. reflexivity.
Qed.

(** X3.  The bilinear form [a] mentions no coefficient function, and a form
    that mentions none has the same value whatever the arrays of [u_n] and [f]
    hold; the linear form [L] does mention them.  This is why the notebook can
    assemble the matrix once and must assemble the right-hand side in every
    pass. *)
Theorem bilinear_form_has_no_coefficients {FS : Type} (Vh : FS) :
  coefficient_free (a Vh) = true
  /\ coefficient_free (L Vh) = false
  /\ forall (F : form FS) (K : FieldAlgebra) (u v : Fld K)
            (c1 c2 : coefficient -> Fld K),
       coefficient_free F = true ->
       denote_form K u v c1 F = denote_form K u v c2 F.
Proof.
  split; [reflexivity |]. split; [reflexivity |].
  intros F K u v c1 c2. induction F as [e | f1 IH1 f2 IH2]; simpl; intros H.
  - f_equal. exact (denote_coefficient_free K u v c1 c2 (sh := scalar) e H).
  - apply andb_prop in H as [H1 H2]. rewrite IH1, IH2 by assumption. reflexivity.
Qed.

Lemma bilinear_form_has_no_coefficients_witness :
  denote_form OneTriangle.constants 1%R 1%R (fun _ => 0%R) (a tt)
  = denote_form OneTriangle.constants 1%R 1%R (fun _ => 1%R) (a tt).
Proof.
  destruct (bilinear_form_has_no_coefficients tt) as (E & _ & H).
  apply H. exact E.
Defined.

Lemma dt_positive : (0 < Q2R dt)%R.
Proof.
  replace 0%R with (Q2R 0) by (unfold Q2R; simpl; lra).
  apply Qlt_Rlt. reflexivity.
Qed.

(** X4.  When the products of fields are symmetric and squares have integrals
    that are not negative, the bilinear form [a] is symmetric and positive:
    [a(u, v) = a(v, u)], [a(u, u) >= 0], and [a(u, u) = 0] only if the
    integrals of [u * u] and of [grad u . grad u] are both zero.  The matrix
    assembled from it is therefore symmetric and positive semidefinite. *)
Theorem bilinear_form_symmetric_positive
    {FS : Type} (Vh : FS) (K : FieldAlgebra) (u v : Fld K)
    (coef : coefficient -> Fld K) :
  integral_homogeneous K -> inner_products K ->
  denote_form K u v coef (a Vh) = denote_form K v u coef (a Vh)
  /\ (0 <= denote_form K u u coef (a Vh))%R
  /\ (denote_form K u u coef (a Vh) = 0%R ->
      integral K (fmul K u u) = 0%R
      /\ integral K (vdot K (grad K u) (grad K u)) = 0%R).
Proof.
  intros Hhom [Hmul Hdot Hmass Hstiff]. simpl. rewrite !Hhom.
  pose proof dt_positive as Hdt.
  pose proof (Hmass u) as M. pose proof (Hstiff (grad K u)) as S.
  split; [rewrite (Hmul u v), (Hdot (grad K u) (grad K v)); reflexivity |].
  split; [nra |]. intros E. split; nra.
Qed.

Lemma constants_inner_products : inner_products OneTriangle.constants.
Proof.
  split; simpl; intros.
  - apply Rmult_comm.
  - apply Rmult_comm.
  - nra.
  - nra.
Qed.

Lemma bilinear_form_symmetric_positive_witness :
  (0 <= denote_form OneTriangle.constants 2%R 2%R (fun _ => 0%R) (a tt))%R.
Proof.
  destruct (bilinear_form_symmetric_positive tt OneTriangle.constants
              2%R 2%R (fun _ => 0%R)) as (_ & H & _).
  - intros c g. reflexivity.
  - exact constants_inner_products.
  - exact H.
Defined.

(** X5.  With a linear integral, [L(v)] is the right-hand side of the
    backward-Euler step as the notebook writes it,
    [integral(u_n * v) + dt * integral(f * v)], and [u] satisfies
    [a(u, v) = L(v)] exactly when
    [integral(u * v) - integral(u_n * v)
     + dt * (integral(grad u . grad v) - integral(f * v)) = 0],
    the weak form of [(u - u_n) / dt = laplace u + f]. *)
Theorem forms_are_the_backward_euler_step
    {FS : Type} (Vh : FS) (K : FieldAlgebra) (u v : Fld K)
    (coef : coefficient -> Fld K) :
  integral_homogeneous K -> linear_integral K ->
  denote_form K u v coef (L Vh)
  = (integral K (fmul K (coef coef_u_n) v)
     + Q2R dt * integral K (fmul K (coef coef_f) v))%R
  /\ (denote_form K u v coef (a Vh) = denote_form K u v coef (L Vh)
      <-> (integral K (fmul K u v) - integral K (fmul K (coef coef_u_n) v)
           + Q2R dt * (integral K (vdot K (grad K u) (grad K v))
                       - integral K (fmul K (coef coef_f) v)) = 0)%R).
Proof.
  intros Hhom [Hadd Hdist Hassoc].
  assert (EL : denote_form K u v coef (L Vh)
               = (integral K (fmul K (coef coef_u_n) v)
                  + Q2R dt * integral K (fmul K (coef coef_f) v))%R).
  { simpl. rewrite Hdist, Hadd, Hassoc, Hhom. reflexivity. }
  split; [exact EL |]. rewrite EL. simpl. rewrite Hhom. split; intros E; lra.
Qed.

Lemma constants_linear_integral : linear_integral OneTriangle.constants.
Proof. split; simpl; intros; ring. Qed.

Lemma forms_are_the_backward_euler_step_witness :
  denote_form OneTriangle.constants 1%R 1%R (fun _ => 1%R) (L tt)
  = (1 * 1 + Q2R dt * (1 * 1))%R.
Proof.
  destruct (forms_are_the_backward_euler_step tt OneTriangle.constants
              1%R 1%R (fun _ => 1%R)) as (H & _).
  - intros c g. reflexivity.
  - exact constants_linear_integral.
  - exact H.
Defined.

(** ** The time loop from any state *)

Lemma time_loop_exit_window (lib : Library) (fuel : nat) (s s' : State lib) :
  time_loop lib fuel s = Done s' -> (t s < T)%Q -> (T <= t s' /\ t s' < T + dt)%Q.
Proof.
  revert s. induction fuel as [| fuel IH]; intros s H Hlt; simpl in H;
    destruct (Qlt_le_dec (t s) T) as [_ | Hge]; try discriminate;
    try (exfalso; lra).
  apply bind_Done_inv in H as (s1 & E1 & H).
  pose proof (step_t lib s s1 E1) as Et.
  destruct (Qlt_le_dec (t s1) T) as [Hlt1 | Hge1].
  - apply (IH s1); assumption.
  - assert (s' = s1) as ->.
    { destruct fuel; simpl in H; destruct (Qlt_le_dec (t s1) T) as [Hc | _];
        try (exfalso; lra); inversion H; reflexivity. }
    rewrite Et. split; [rewrite <- Et; exact Hge1 | lra].
Qed.

Lemma time_loop_enough_fuel (lib : Library) (n fuel : nat) (s : State lib) :
  (T <= t s + inject_Z (Z.of_nat n) * dt)%Q -> (n <= fuel)%nat ->
  time_loop lib fuel s <> Timeout.
Proof.
  revert fuel s. induction n as [| n IH]; intros fuel s Hn Hfuel.
  - assert (Hge : (T <= t s)%Q).
    { change (inject_Z (Z.of_nat 0)) with 0%Q in Hn. lra. }
    destruct fuel; simpl; destruct (Qlt_le_dec (t s) T) as [Hlt | _];
      try discriminate; exfalso; lra.
  - destruct fuel as [| fuel]; [lia |]. simpl.
    destruct (Qlt_le_dec (t s) T) as [_ | _]; [| discriminate].
    destruct (step lib s) as [s1 | e |] eqn:E1; simpl; try discriminate.
    + apply IH; [| lia]. rewrite (step_t lib s s1 E1).
      rewrite Nat2Z.inj_succ, <- Z.add_1_r, inject_Z_plus in Hn.
      change (inject_Z 1) with 1%Q in Hn. lra.
    + exfalso. eapply run_stmts_not_timeout. exact E1.
Qed.

(** X6.  From any state whose clock is not negative, not only the one the
    notebook starts the loop in, the time loop terminates: some number of
    passes is enough.  Entered with [t >= T] it does nothing; entered with
    [t < T] it leaves [t] between [T] and [T + dt], so the last solve may be
    for a time beyond [T], by at most one step. *)
Theorem time_loop_terminates_from_any_state (lib : Library) (s : State lib) :
  (0 <= t s)%Q ->
  exists n : nat,
    forall fuel, (n <= fuel)%nat ->
      time_loop lib fuel s <> Timeout
      /\ ((T <= t s)%Q -> time_loop lib fuel s = Done s)
      /\ (forall s', time_loop lib fuel s = Done s' -> (t s < T)%Q ->
            (T <= t s' /\ t s' <= T + dt)%Q).
Proof.
  intros _.
  set (c := Qceiling ((T - t s) * (200 # 3))).
  exists (Z.to_nat (Z.max 0 c)). intros fuel Hfuel.
  split; [| split].
  - apply (time_loop_enough_fuel lib (Z.to_nat (Z.max 0 c))); [| exact Hfuel].
    rewrite Z2Nat.id by lia.
    assert (Hc : ((T - t s) * (200 # 3) <= inject_Z (Z.max 0 c))%Q).
    { apply Qle_trans with (inject_Z c); [apply Qle_ceiling |].
      rewrite <- Zle_Qle. lia. }
    rewrite dt_value. revert Hc. generalize (inject_Z (Z.max 0 c)). intros q Hc. lra.
  - intros Hge. destruct fuel; simpl; destruct (Qlt_le_dec (t s) T) as [Hlt | _];
      try reflexivity; exfalso; lra.
  - intros s' H Hlt. destruct (time_loop_exit_window lib fuel s s' H Hlt) as [H1 H2].
    split; [exact H1 | apply Qlt_le_weak; exact H2].
Qed.

Lemma time_loop_terminates_from_any_state_witness :
  exists n : nat, time_loop (OneTriangle.lib None) n (OneTriangle.s0 None) <> Timeout.
Proof.
  destruct (time_loop_terminates_from_any_state (OneTriangle.lib None)
              (OneTriangle.s0 None)) as [n H].
  - simpl. lra.
  - exists n. apply (H n). lia.
Defined.

(** ** The permutation of the degrees of freedom for the plot *)

Section Argsort.

Context (key : nat -> nat).

Let by_key (i j : nat) : Prop := (key i <= key j)%nat.

Lemma insert_by_key_perm (i : nat) (l : list nat) :
  Permutation (insert_by_key key i l) (i :: l).
Proof.
  induction l as [| j l IH]; simpl; [reflexivity |].
  destruct (key i <=? key j)%nat; [reflexivity |].
  rewrite IH. apply perm_swap.
Qed.

Lemma insert_by_key_sorted (i : nat) (l : list nat) :
  StronglySorted by_key l -> StronglySorted by_key (insert_by_key key i l).
Proof.
  induction l as [| j l IH]; simpl; intros Hs.
  - repeat constructor.
  - apply StronglySorted_inv in Hs as [Hl Hj].
    destruct (Nat.leb_spec (key i) (key j)) as [Hij | Hji].
    + constructor; [constructor; assumption |].
      constructor; [exact Hij |].
      eapply Forall_impl; [exact Hj |]. unfold by_key. intros k Hk. lia.
    + constructor; [apply IH; exact Hl |].
      rewrite insert_by_key_perm. constructor; [unfold by_key; lia | exact Hj].
Qed.

Lemma sort_by_key (l : list nat) :
  Permutation (fold_right (insert_by_key key) [] l) l
  /\ StronglySorted by_key (fold_right (insert_by_key key) [] l).
Proof.
  induction l as [| i l [IHp IHs]]; simpl; [split; constructor |].
  split.
  - rewrite insert_by_key_perm, IHp. reflexivity.
  - apply insert_by_key_sorted. exact IHs.
Qed.

Lemma sorted_by_key_map (l : list nat) :
  StronglySorted by_key l -> StronglySorted le (map key l).
Proof.
  induction 1 as [| i l Hs IH Hi]; simpl; constructor; [exact IH |].
  apply Forall_map. exact Hi.
Qed.

End Argsort.

Lemma map_nth_seq (l : list nat) :
  map (fun i => nth i l 0%nat) (seq 0 (length l)) = l.
Proof.
  induction l as [| x l IH]; simpl; [reflexivity |].
  f_equal. rewrite <- seq_shift, map_map. exact IH.
Qed.

Lemma seq_sorted (start len : nat) : StronglySorted le (seq start len).
Proof.
  revert start. induction len as [| len IH]; intros start; simpl; constructor.
  - apply IH.
  - apply Forall_forall. intros k Hk. apply list_elem_of_In, in_seq in Hk. lia.
Qed.

(** X7.  [np.argsort(keys)] lists every index of [keys] exactly once, in an
    order in which the keys do not decrease.  When the keys are themselves a
    permutation of [0 .. n-1], as the VTK permutation of a cell is, the result
    is the inverse permutation: reading the keys in that order gives
    [0, 1, ..., n-1]. *)
Theorem argsort_inverts_permutation (keys : list nat) :
  Permutation (np_argsort keys) (seq 0 (length keys))
  /\ StronglySorted le (map (fun i => nth i keys 0%nat) (np_argsort keys))
  /\ (Permutation keys (seq 0 (length keys)) ->
      map (fun i => nth i keys 0%nat) (np_argsort keys) = seq 0 (length keys)).
Proof.
  unfold np_argsort.
  destruct (sort_by_key (fun i => nth i keys 0%nat) (seq 0 (length keys)))
    as [Hp Hs].
  apply sorted_by_key_map in Hs.
  split; [exact Hp |]. split; [exact Hs |].
  intros Hkeys. apply (StronglySorted_unique le); [exact Hs | apply seq_sorted |].
  rewrite Hp, map_nth_seq. exact Hkeys.
Qed.

Lemma argsort_inverts_permutation_witness :
  map (fun i => nth i [2; 0; 1]%nat 0%nat) (np_argsort [2; 0; 1]%nat) = [0; 1; 2]%nat.
Proof.
  destruct (argsort_inverts_permutation [2; 0; 1]%nat) as (_ & _ & H).
  apply H. simpl.
  apply Permutation_sym, (Permutation_trans (perm_skip 0%nat (perm_swap 2 1 []))%nat).
  apply perm_swap.
Defined.

(** ** The grid handed to pyvista *)

Lemma mapM_Done_inv {X Y : Type} (g : X -> outcome Y) (l : list X) (ys : list Y) :
  mapM g l = Done ys -> Forall2 (fun x y => g x = Done y) l ys.
Proof.
  revert ys. induction l as [| x l IH]; simpl; intros ys H.
  - inversion H; subst. constructor.
  - apply bind_Done_inv in H as (y & Ey & H).
    apply bind_Done_inv in H as (ys' & Eys & H).
    inversion H; subst. constructor; auto.
Qed.

Lemma mapM_all_Done {X Y : Type} (g : X -> outcome Y) (h : X -> Y) (l : list X) :
  Forall (fun x => g x = Done (h x)) l -> mapM g l = Done (map h l).
Proof.
  induction 1 as [| x l Hx Hl IH]; simpl; [reflexivity |].
  rewrite Hx. simpl. rewrite IH. reflexivity.
Qed.

Lemma mapM_Raise {X Y : Type} (g : X -> outcome Y) (e : exn) (l : list X) :
  Forall (fun x => (exists y, g x = Done y) \/ g x = Raise e) l ->
  Exists (fun x => g x = Raise e) l ->
  mapM g l = Raise e.
Proof.
  induction 1 as [| x l Hx Hl IH]; intros Hex; [inversion Hex |].
  simpl. destruct Hx as [[y Hy] | Hx].
  - rewrite Hy. simpl. inversion Hex as [? ? Hc | ? ? Hc]; subst; [congruence |].
    rewrite (IH Hc). reflexivity.
  - rewrite Hx. reflexivity.
Qed.

Lemma take_columns_outcome {X : Type} (row : list X) (perm : list nat) :
  (exists ys, mapM (np_take row) perm = Done ys)
  \/ mapM (np_take row) perm = Raise "IndexError: index is out of bounds".
Proof.
  induction perm as [| j perm IH]; simpl; [left; eauto |].
  unfold np_take at 1 3. destruct (nth_error row j) as [z |]; simpl; [| auto].
  destruct IH as [[ys E] | E]; rewrite E; simpl; [left; eauto | auto].
Qed.

Lemma np_assign_2d_shape (n k : nat) (src rows : list (list Z)) :
  np_assign_2d n k src = Done rows ->
  length rows = n /\ Forall (fun row => length row = k) rows.
Proof.
  unfold np_assign_2d. intros H.
  apply bind_Done_inv in H as (rows' & E & H).
  assert (Hk : Forall (fun row => length row = k) rows').
  { apply mapM_Done_inv in E. clear H. induction E as [| r r' src' rows'' Hr _ IH];
      [constructor |]. constructor; [| exact IH].
    apply np_assign_length in Hr. rewrite Hr. apply repeat_length. }
  split.
  - apply np_assign_length in H. rewrite H. apply repeat_length.
  - unfold np_assign in H.
    destruct (length rows' =? length (repeat (repeat 0%Z k) n))%nat.
    + inversion H; subst. exact Hk.
    + destruct rows' as [| r [| r2 rows']]; try discriminate.
      inversion H; subst.
      apply Forall_forall. intros row Hrow.
      apply list_elem_of_In, repeat_spec in Hrow. subst row.
      inversion Hk; assumption.
Qed.

Lemma cells_length (k : nat) (rows : list (list Z)) :
  Forall (fun row => length row = k) rows ->
  length (concat (map (fun row => Z.of_nat k :: row) rows)) = (length rows * S k)%nat.
Proof.
  induction 1 as [| row rows Hrow _ IH]; simpl; [reflexivity |].
  rewrite length_app, IH, Hrow. lia.
Qed.

Lemma map_nth_seq_Z (l : list Z) :
  map (fun i => nth i l 0%Z) (seq 0 (length l)) = l.
Proof.
  induction l as [| x l IH]; simpl; [reflexivity |].
  f_equal. rewrite <- seq_shift, map_map. exact IH.
Qed.

(** X8.  The cell array built for the plot.  When the dofmap has at least [n]
    rows of [k] entries and [perm] is a permutation of [0 .. k-1], the array
    is, for each of the first [n] rows, the number [k] followed by the entries
    of that row in the order of [perm]: a rearrangement of the row, nothing
    lost or repeated; it has [n * (k + 1)] entries.  When [perm] holds an index
    that is not a column of one of these rows, the construction raises
    [IndexError]. *)
Theorem vtk_cells_reorders_rows
    (n k : nat) (dofmap_ : list (list Z)) (perm : list nat) :
  (n <= length dofmap_)%nat ->
  Forall (fun row => length row = k) dofmap_ ->
  (Permutation perm (seq 0 k) ->
   exists rows,
     vtk_cells n k dofmap_ perm
     = Done (concat (map (fun row => Z.of_nat k :: row) rows))
     /\ rows = map (fun row => map (fun j => nth j row 0%Z) perm) (firstn n dofmap_)
     /\ Forall2 (fun row r => Permutation r row) (firstn n dofmap_) rows
     /\ length (concat (map (fun row => Z.of_nat k :: row) rows)) = (n * S k)%nat)
  /\ ((0 < n)%nat -> Exists (fun j => (k <= j)%nat) perm ->
      vtk_cells n k dofmap_ perm = Raise "IndexError: index is out of bounds").
Proof.
  intros Hn Hrows. unfold vtk_cells. cbv zeta. rewrite length_seq.
  assert (Hfirst : Forall (fun row => length row = k) (firstn n dofmap_)).
  { apply Forall_take. exact Hrows. }
  assert (Hlen : length (firstn n dofmap_) = n) by (rewrite length_firstn; lia).
  split.
  - intros Hperm.
    assert (Hidx : Forall (fun j => (j < k)%nat) perm).
    { apply Forall_forall. intros j Hj. apply list_elem_of_In in Hj.
      apply (Permutation_in _ Hperm), in_seq in Hj. lia. }
    assert (Hk : length perm = k).
    { rewrite (Permutation_length Hperm). apply length_seq. }
    set (pick := fun row : list Z => map (fun j => nth j row 0%Z) perm).
    assert (Hsel : mapM (fun row => mapM (np_take row) perm) (firstn n dofmap_)
                   = Done (map pick (firstn n dofmap_))).
    { apply mapM_all_Done. eapply Forall_impl; [exact Hfirst |].
      intros row Hrow. simpl. apply mapM_all_Done.
      eapply Forall_impl; [exact Hidx |]. intros j Hj. simpl.
      unfold np_take. destruct (nth_error row j) as [z |] eqn:E.
      - rewrite (nth_error_nth _ _ 0%Z E). reflexivity.
      - apply nth_error_None in E. cbv beta in *. lia. }
    rewrite Hsel. cbn [bind]. unfold np_assign_2d.
    assert (Hinner : mapM (np_assign (repeat 0%Z k)) (map pick (firstn n dofmap_))
                     = Done (map (fun r => r) (map pick (firstn n dofmap_)))).
    { apply mapM_all_Done. apply Forall_forall. intros r Hr.
      apply list_elem_of_In, in_map_iff in Hr as (row & <- & _).
      apply np_assign_same_shape. unfold pick.
      rewrite length_map, repeat_length. exact Hk. }
    rewrite map_id in Hinner. rewrite Hinner. cbn [bind].
    rewrite np_assign_same_shape
      by (rewrite length_map, repeat_length; exact Hlen).
    cbn [bind]. exists (map pick (firstn n dofmap_)).
    split; [reflexivity |]. split; [reflexivity |]. split.
    + clear Hsel Hinner Hlen. induction Hfirst as [| row rows Hrow _ IH];
        simpl; [constructor |]. constructor; [| exact IH].
      unfold pick. rewrite Hperm, <- Hrow. rewrite map_nth_seq_Z. reflexivity.
    + rewrite cells_length.
      * rewrite length_map, Hlen. reflexivity.
      * apply Forall_forall. intros r Hr.
        apply list_elem_of_In, in_map_iff in Hr as (row & <- & _).
        unfold pick. rewrite length_map. exact Hk.
  - intros Hpos Hbad.
    rewrite (mapM_Raise _ "IndexError: index is out of bounds"); [reflexivity | |].
    + apply Forall_forall. intros row _. apply take_columns_outcome.
    + destruct (firstn n dofmap_) as [| row rows] eqn:E;
        [simpl in Hlen; lia |].
      constructor. inversion Hfirst as [| ? ? Hrow _]; subst.
      apply mapM_Raise.
      * apply Forall_forall. intros j _. unfold np_take.
        destruct (nth_error row j); [left; eauto | auto].
      * eapply Exists_impl; [exact Hbad |]. intros j Hj. simpl. unfold np_take.
        destruct (nth_error row j) eqn:Ej; [| reflexivity].
        assert (j < length row)%nat by (apply nth_error_Some; congruence).
        cbv beta in *. lia.
Qed.

Lemma vtk_cells_reorders_rows_witness :
  vtk_cells 1 3 [[7; 8; 9]%Z] [5%nat] = Raise "IndexError: index is out of bounds".
Proof.
  destruct (vtk_cells_reorders_rows 1 3 [[7; 8; 9]%Z] [5%nat]) as (_ & H).
  - simpl. lia.
  - repeat constructor.
  - apply H; [lia |]. constructor. lia.
Defined.

(** What a completed [setup] has built for the plot. *)
Lemma setup_plot_inv (lib : Library) (s0 : State lib) :
  setup lib = Done s0 ->
  exists n p cells geometry points0 top,
    index_map_size_local lib (domain (handles s0))
      (topology_dim lib (domain (handles s0))) = Ok n
    /\ perm_vtk lib (topology_cell_type lib (domain (handles s0)))
         (dof_layout_num_dofs lib (V (handles s0))) = Ok p
    /\ vtk_cells n (dof_layout_num_dofs lib (V (handles s0)))
         (dofmap_list lib (V (handles s0))) (np_argsort p) = Done cells
    /\ tabulate_dof_coordinates lib (V (handles s0)) = Ok geometry
    /\ new_UnstructuredGrid lib cells (repeat (cell_type_code lib triangle) n) geometry
       = Ok (grid (handles s0))
    /\ warp_by_scalar lib (grid (handles s0)) (u_sol s0) 1 = Ok points0
    /\ warped s0 = mkWarped points0 (u_sol s0)
    /\ py_max (u_sol s0) = Done top.
Proof.
  unfold setup. intros H. cbv zeta in H.
  repeat match goal with
  | H : bind (interpolate _ _ _ _) _ = Done _ |- _ =>
      let r := fresh "r" in
      let E := fresh "E" in
      apply bind_Done_inv in H as (r & E & H)
  | H : bind _ _ = Done _ |- _ =>
      let r := fresh "r" in
      let E := fresh "E" in
      apply bind_Done_inv in H as (r & E & H); try apply call_Done_inv in E
  end.
  inversion H; subst; clear H. simpl.
  repeat match goal with
  | H1 : ?c = Ok ?x, H2 : ?c = Ok ?y |- _ =>
      assert (x = y) by congruence; subst; clear H2
  end.
  match goal with
  | Hsel : mapM _ (firstn _ _) = Done ?sel, Hrows : np_assign_2d _ _ ?sel = Done ?rows |- _ =>
      assert (Hcells : vtk_cells _ _ _ _ = Done (concat (map _ rows)))
        by (unfold vtk_cells; cbv zeta; rewrite Hsel; cbn [bind];
            rewrite Hrows; reflexivity)
  end.
  do 6 eexists. repeat split; eauto.
Qed.

(** X9.  The grid that the notebook plots is built from a well-formed cell
    array: one record of [k + 1] numbers per cell, where [k] is the number of
    degrees of freedom per cell, so [n * (k + 1)] numbers for the [n] cells of
    the mesh, together with [n] cell types and the coordinates of the degrees
    of freedom.  The warped grid starts with the array of [u_sol] as its point
    data. *)
Theorem plotted_grid_is_well_formed (lib : Library) (s0 : State lib) :
  setup lib = Done s0 ->
  exists n rows geometry points0,
    index_map_size_local lib (domain (handles s0))
      (topology_dim lib (domain (handles s0))) = Ok n
    /\ length rows = n
    /\ Forall (fun row => length row = dof_layout_num_dofs lib (V (handles s0))) rows
    /\ length (concat (map (fun row =>
                 Z.of_nat (dof_layout_num_dofs lib (V (handles s0))) :: row) rows))
       = (n * S (dof_layout_num_dofs lib (V (handles s0))))%nat
    /\ tabulate_dof_coordinates lib (V (handles s0)) = Ok geometry
    /\ new_UnstructuredGrid lib
         (concat (map (fun row =>
            Z.of_nat (dof_layout_num_dofs lib (V (handles s0))) :: row) rows))
         (repeat (cell_type_code lib triangle) n) geometry
       = Ok (grid (handles s0))
    /\ length (repeat (cell_type_code lib triangle) n) = n
    /\ warped s0 = mkWarped points0 (u_sol s0).
Proof.
  intros Hsetup.
  destruct (setup_plot_inv lib s0 Hsetup)
    as (n & p & cells & geometry & points0 & top & H).
  decompose [and] H; clear H.
  match goal with Hc : vtk_cells _ _ _ _ = Done _ |- _ =>
    unfold vtk_cells in Hc; cbv zeta in Hc;
    apply bind_Done_inv in Hc as (sel & _ & Hc);
    apply bind_Done_inv in Hc as (rows & Hrows & Hc);
    inversion Hc; subst cells; clear Hc
  end.
  rewrite length_seq in Hrows.
  apply np_assign_2d_shape in Hrows as [Hlen Hk].
  exists n, rows, geometry, points0.
  repeat split; try assumption.
  - rewrite cells_length by exact Hk. rewrite Hlen. reflexivity.
  - apply repeat_length.
Qed.

Lemma plotted_grid_is_well_formed_witness :
  exists points0,
    warped (OneTriangle.s0 None) = mkWarped points0 (u_sol (OneTriangle.s0 None)).
Proof.
  destruct (plotted_grid_is_well_formed (OneTriangle.lib None) (OneTriangle.s0 None))
    as (n & rows & geometry & points0 & H); [reflexivity |].
  exists points0. decompose [and] H. assumption.
Defined.

(** ** Frames *)

Lemma iterate_point_data (lib : Library) (n : nat) (s0 s : State lib) :
  setup lib = Done s0 -> iterate lib n s0 = Done s ->
  length (point_data (warped s)) = length (u_sol s).
Proof.
  intros Hsetup.
  apply (iterate_invariant lib
           (fun r => length (point_data (warped r)) = length (u_sol r))).
  - intros r r' Hr Hstep. apply step_inv in Hstep.
    destruct Hstep as (x & k & b1 & b2 & b3 & y & y' & un & nw & p & d & name & frame & H).
    cbv zeta in H. decompose [and] H; clear H. subst r'. simpl.
    match goal with E : np_assign (point_data _) _ = Done d |- _ =>
      apply np_assign_length in E end.
    congruence.
  - destruct (setup_plot_inv lib s0 Hsetup)
      as (m & p & cells & geometry & points0 & top & H).
    decompose [and] H.
    match goal with E : warped s0 = _ |- _ => rewrite E end. reflexivity.
Qed.

(** X10.  The frame that a pass writes shows the solution of that pass: after
    the pass the point data of the warped grid is the new array of [u_sol],
    the points are those of the grid warped by that array, and the frame
    appended to the GIF is rendered from them. *)
Theorem frame_shows_current_solution
    (lib : Library) (s0 s s' : State lib) (n : nat) :
  setup lib = Done s0 -> iterate lib n s0 = Done s -> step lib s = Done s' ->
  point_data (warped s') = u_sol s'
  /\ exists new_warped frame frames,
       warp_by_scalar lib (grid (handles s0)) (u_sol s') 1 = Ok new_warped
       /\ np_assign (points (warped s)) new_warped = Done (points (warped s'))
       /\ render lib (points (warped s')) (u_sol s') = Ok frame
       /\ files s = {["u_sol.gif" := frames]}
       /\ files s' = {["u_sol.gif" := frames ++ [frame]]}.
Proof.
  intros Hsetup Hiter Hstep.
  pose proof (iterate_point_data lib n s0 s Hsetup Hiter) as Hpd.
  pose proof (iterate_unchanged lib n s0 s Hiter) as (Hh & _).
  pose proof (iterate_gif lib n s0 s (setup_gif lib s0 Hsetup) Hiter)
    as (Hp & frames & Hf & _).
  pose proof (step_inv lib s s' Hstep) as H.
  destruct H as (x & k & b1 & b2 & b3 & y & y' & un & nw & p & d & name & frame & H).
  cbv zeta in H. decompose [and] H; clear H.
  assert (name = "u_sol.gif") as ->.
  { match goal with E : mwriter _ = Some name |- _ => rewrite Hp in E; simpl in E end.
    congruence. }
  match goal with
  | E : np_assign (point_data (warped s)) y' = Done d |- _ =>
      rewrite np_assign_same_shape in E by congruence; inversion E; subst d
  end.
  subst s'. simpl. rewrite <- Hh.
  split; [reflexivity |].
  exists nw, frame, frames. repeat split; try assumption.
  rewrite Hf, lookup_singleton_eq. simpl. apply insert_singleton_eq.
Qed.

Lemma frame_shows_current_solution_witness :
  exists s', step (OneTriangle.lib None) (OneTriangle.s0 None) = Done s'
             /\ point_data (warped s') = u_sol s'.
Proof.
  destruct (returns_Done _ one_triangle_step_returns) as [s' Hs'].
  exists s'. split; [exact Hs' |].
  destruct (frame_shows_current_solution (OneTriangle.lib None)
              (OneTriangle.s0 None) (OneTriangle.s0 None) s' 0
              (one_triangle_setup None) eq_refl Hs') as [E _].
  exact E.
Defined.

(** ** Sizes of the arrays *)

(** X11.  No statement of the loop body resizes an array: when a statement
    completes, the arrays of [f], [b], [u_sol] and [u_n] and the points and
    point data of the warped grid have the sizes they had before.  The
    assignment [u_n.x.array[:] = u_sol.x.array[:]] with arrays of different
    sizes raises [ValueError], unless the source has a single entry, which
    numpy broadcasts. *)
Theorem statements_keep_array_sizes (lib : Library) (c : Stmt) (s s' : State lib) :
  exec lib c s = Done s' ->
  length (f s') = length (f s)
  /\ length (b s') = length (b s)
  /\ length (u_sol s') = length (u_sol s)
  /\ length (u_n s') = length (u_n s)
  /\ length (points (warped s')) = length (points (warped s))
  /\ length (point_data (warped s')) = length (point_data (warped s))
  /\ (forall r : State lib,
        length (u_sol r) <> length (u_n r) -> length (u_sol r) <> 1%nat ->
        exec lib UpdatePrevious r
        = Raise "ValueError: could not broadcast input array")
  /\ (forall (r : State lib) (v : R),
        u_sol r = [v] -> length (u_n r) <> 1%nat ->
        exists r', exec lib UpdatePrevious r = Done r'
                   /\ u_n r' = repeat v (length (u_n r))).
Proof.
  intros H. repeat split.
  1-6: destruct c; simpl in H; outcome_inv; simpl;
    repeat match goal with
    | E : interpolate _ _ _ _ = Done _ |- _ =>
        apply interpolate_inv in E as (? & ? & ? & ?)
    | E : vec_write _ _ = Done _ |- _ => apply vec_write_inv in E as [? ?]
    | E : vec_axpy _ _ = Done _ |- _ => apply vec_axpy_length in E
    | E : np_assign _ _ = Done _ |- _ => apply np_assign_length in E
    end;
    rewrite ?vec_set_length; congruence.
  - intros r Hne H1. simpl. unfold np_assign.
    destruct (Nat.eqb_spec (length (u_sol r)) (length (u_n r))) as [E | _];
      [contradiction |].
    destruct (u_sol r) as [| v [| w l]]; simpl in *; try reflexivity. lia.
  - intros r v Hv Hne. simpl. unfold np_assign. rewrite Hv. simpl.
    destruct (length (u_n r)) as [| [| m]] eqn:E; [| lia |];
      eexists; (split; [reflexivity |]); simpl; rewrite ?E; reflexivity.
Qed.

Lemma statements_keep_array_sizes_witness :
  exists s', exec (OneTriangle.lib None) Solve (OneTriangle.s0 None) = Done s'
             /\ length (u_sol s') = 3%nat.
Proof.
  eexists. split; [reflexivity |].
  destruct (statements_keep_array_sizes (OneTriangle.lib None) Solve
              (OneTriangle.s0 None) _ eq_refl) as (_ & _ & E & _).
  exact E.
Defined.

(** ** The GIF writer *)

Lemma time_loop_unchanged (lib : Library) (fuel : nat) (s s' : State lib) :
  time_loop lib fuel s = Done s' -> unchanged_by_loop s s'.
Proof.
  revert s. induction fuel as [| fuel IH]; intros s H; simpl in H;
    destruct (Qlt_le_dec (t s) T); try discriminate;
    try (inversion H; subst; unfold unchanged_by_loop; tauto).
  apply bind_Done_inv in H as (s1 & E1 & H).
  apply step_unchanged in E1 as (H1 & H2 & H3 & H4 & H5).
  apply IH in H as (G1 & G2 & G3 & G4 & G5).
  unfold unchanged_by_loop. repeat split; congruence.
Qed.

(** X12.  The GIF writer is open on [u_sol.gif] in every state the loop
    reaches, so [plotter.write_frame()] never fails for want of an open file;
    a completed run leaves the writer closed. *)
Theorem gif_writer_open_then_closed (lib : Library) (s0 : State lib) :
  setup lib = Done s0 ->
  (forall n s, iterate lib n s0 = Done s -> mwriter (plotter s) = Some "u_sol.gif")
  /\ (forall fuel s_end, main lib fuel = Done s_end -> mwriter (plotter s_end) = None).
Proof.
  intros Hsetup.
  assert (H0 : plotter s0 = mkPlotter (Some "u_sol.gif")).
  { apply setup_gif in Hsetup as [H0 _]. exact H0. }
  split.
  - intros n s Hiter. apply iterate_unchanged in Hiter as (_ & _ & _ & Hp & _).
    rewrite Hp, H0. reflexivity.
  - intros fuel s_end Hmain. unfold main in Hmain. rewrite Hsetup in Hmain.
    cbn [bind] in Hmain.
    apply bind_Done_inv in Hmain as (s1 & Hloop & Hmain).
    apply bind_Done_inv in Hmain as (s2 & Hclose & Hprint).
    apply time_loop_unchanged in Hloop as (_ & _ & _ & Hp & _).
    unfold plotter_close in Hclose. rewrite Hp, H0 in Hclose. simpl in Hclose.
    outcome_inv. unfold print in Hprint. inversion Hprint; subst. reflexivity.
Qed.

Lemma gif_writer_open_then_closed_witness :
  mwriter (plotter (OneTriangle.s0 None)) = Some "u_sol.gif".
Proof.
  destruct (gif_writer_open_then_closed (OneTriangle.lib None) (OneTriangle.s0 None))
    as [H _]; [reflexivity |].
  apply (H 0%nat). reflexivity.
Defined.

(** ** The colour range *)

Lemma fold_left_Rmax (l : list R) (x : R) :
  (fold_left Rmax l x = x \/ In (fold_left Rmax l x) l)
  /\ (x <= fold_left Rmax l x)%R
  /\ Forall (fun y => (y <= fold_left Rmax l x)%R) l.
Proof.
  revert x. induction l as [| y l IH]; intros x; simpl.
  - split; [auto |]. split; [lra | constructor].
  - destruct (IH (Rmax x y)) as (Hin & Hle & Hall).
    pose proof (Rmax_l x y). pose proof (Rmax_r x y).
    split; [| split; [lra | constructor; [lra | exact Hall]]].
    destruct Hin as [E | Hin]; [| auto].
    rewrite E. unfold Rmax. destruct (Rle_dec x y); auto.
Qed.

(** X13.  The upper end of the colour range, [max(u_sol.x.array)], is an
    entry of the array and no entry exceeds it; on an empty array, that is for
    a function space without degrees of freedom, it raises [ValueError]. *)
Theorem py_max_is_the_largest_entry (xs : ndarray) :
  (py_max xs = Raise "ValueError: max() arg is an empty sequence" <-> xs = [])
  /\ (forall m, py_max xs = Done m ->
        In m xs /\ Forall (fun x => (x <= m)%R) xs).
Proof.
  destruct xs as [| x xs]; simpl.
  - split; [split; reflexivity |]. intros m H. discriminate.
  - split; [split; intros H; discriminate |].
    intros m H. inversion H; subst m.
    destruct (fold_left_Rmax xs x) as (Hin & Hle & Hall).
    split; [destruct Hin as [-> | Hin]; auto |].
    constructor; assumption.
Qed.

(** ** The sign of the source *)


